(** * got: the command-line orchestrator (cmd/got/main.go)

    A shallow embedding of [run], [multiDownload], [download] and [getURL],
    of the progress callback installed by [run] and of the interrupt
    listener started by [main], together with the parts of the Go standard
    library they rest on ([strings.SplitN], [strings.TrimSpace],
    [bufio.Scanner] with its default line splitter).

    Go strings are byte sequences: they are modelled by [string], one
    [ascii] per byte.  Everything outside the process (file system,
    standard input, the URL parser and the download engine) is reached
    through the [World] interface. *)

From Stdlib Require Import ZArith NArith List String Ascii Bool Lia FunInd.
Import ListNotations.
Open Scope string_scope.

(* ================================================================== *)
(** ** Package [strings] *)

Module strings.

Definition code (c : ascii) : N := N_of_ascii c.

(** The [asciiSpace] table: tab, line feed, vertical tab, form feed,
    carriage return and space. *)
Definition asciiSpace (c : ascii) : bool :=
  ((9 <=? code c) && (code c <=? 13) || (code c =? 32))%N.

(** White space of Latin-1 above ASCII, as UTF-8: U+0085 and U+00A0. *)
Definition space2 (c1 c2 : ascii) : bool :=
  ((code c1 =? 0xC2) && ((code c2 =? 0x85) || (code c2 =? 0xA0)))%N.

(** The remaining code points of [unicode.White_Space], as UTF-8:
    U+1680, U+2000..U+200A, U+2028, U+2029, U+202F, U+205F, U+3000. *)
Definition space3 (c1 c2 c3 : ascii) : bool :=
  (((code c1 =? 0xE1) && (code c2 =? 0x9A) && (code c3 =? 0x80))
   || ((code c1 =? 0xE2) && (code c2 =? 0x80)
       && (((0x80 <=? code c3) && (code c3 <=? 0x8A))
           || (code c3 =? 0xA8) || (code c3 =? 0xA9) || (code c3 =? 0xAF)))
   || ((code c1 =? 0xE2) && (code c2 =? 0x81) && (code c3 =? 0x9F))
   || ((code c1 =? 0xE3) && (code c2 =? 0x80) && (code c3 =? 0x80)))%N.

(** [TrimLeftFunc(s, unicode.IsSpace)] on bytes: drop white-space runes
    from the front.  A byte sequence that is not the encoding of a
    white-space rune decodes to some other rune (or to [RuneError]) and
    stops the scan. *)
Function TrimLeftSpace (s : list ascii) {struct s} : list ascii :=
  match s with
  | [] => []
  | c1 :: r1 =>
    if asciiSpace c1 then TrimLeftSpace r1 else
    match r1 with
    | [] => s
    | c2 :: r2 =>
      if space2 c1 c2 then TrimLeftSpace r2 else
      match r2 with
      | [] => s
      | c3 :: r3 => if space3 c1 c2 c3 then TrimLeftSpace r3 else s
      end
    end
  end.

(** The same scan from the back, on the reversed byte sequence. *)
Fixpoint trimRev (s : list ascii) : list ascii :=
  match s with
  | [] => []
  | c1 :: r1 =>
    if asciiSpace c1 then trimRev r1 else
    match r1 with
    | [] => s
    | c2 :: r2 =>
      if space2 c2 c1 then trimRev r2 else
      match r2 with
      | [] => s
      | c3 :: r3 => if space3 c3 c2 c1 then trimRev r3 else s
      end
    end
  end.

(** [TrimRightFunc(s, unicode.IsSpace)]. *)
Definition TrimRightSpace (s : list ascii) : list ascii :=
  rev' (trimRev (rev' s)).

(** [strings.TrimLeftFunc(s, unicode.IsSpace)] on a Go string. *)
Definition TrimLeft (s : string) : string :=
  string_of_list_ascii (TrimLeftSpace (list_ascii_of_string s)).

(** [strings.TrimSpace]: leading and trailing white space removed. *)
Definition TrimSpace (s : string) : string :=
  string_of_list_ascii
    (TrimRightSpace (TrimLeftSpace (list_ascii_of_string s))).

(** [strings.Cut(s, sep)] for a one-byte separator: the text before and
    after the first occurrence of [sep], if there is one. *)
Fixpoint Cut (s : string) (sep : ascii) : option (string * string) :=
  match s with
  | EmptyString => None
  | String c r =>
    if Ascii.eqb c sep then Some (EmptyString, r)
    else match Cut r sep with
         | Some (k, v) => Some (String c k, v)
         | None => None
         end
  end.

(** [strings.SplitN(s, sep, 2)] for a one-byte separator: at most two
    pieces, split at the first [sep]; the whole of [s] when there is
    none. *)
Definition SplitN2 (s : string) (sep : ascii) : list string :=
  match Cut s sep with
  | Some (k, v) => [k; v]
  | None => [s]
  end.

(** [strings.Contains(s, sep)] for a one-byte separator. *)
Fixpoint Contains (s : string) (sep : ascii) : bool :=
  match s with
  | EmptyString => false
  | String c r => Ascii.eqb c sep || Contains r sep
  end.

End strings.

(* ================================================================== *)
(** ** Package [bufio]: a [Scanner] with the default [ScanLines] split *)

Module bufio.

Definition LF : ascii := "010".
Definition CR : ascii := "013".

(** [bufio.MaxScanTokenSize]: the scanner's buffer never grows beyond
    64 KiB, and a line has to fit into it together with its newline. *)
Definition MaxScanTokenSize : N := 64 * 1024.

(** [dropCR], on the reversed bytes of a line. *)
Definition dropCR (rline : list ascii) : list ascii :=
  match rline with
  | c :: r => if Ascii.eqb c CR then r else rline
  | [] => rline
  end.

Definition token (rline : list ascii) : string :=
  string_of_list_ascii (rev' (dropCR rline)).

(** The tokens delivered by successive calls of [Scan] until it returns
    false, for a reader holding [input].  [rline] and [n] are the bytes
    of the current line read so far (reversed) and their number.
    - a newline ends the line: the token is the line without its
      trailing carriage return;
    - at the end of the input a last line without newline is delivered
      when it is not empty;
    - a line of [MaxScanTokenSize] bytes or more fills the buffer before
      its newline is seen: [Scan] returns false (with [ErrTooLong], which
      only [Err] would show) and nothing more is delivered. *)
Fixpoint scan (rline : list ascii) (n : N) (input : string) : list string :=
  match input with
  | EmptyString =>
    if (n =? 0)%N then []
    else if (n <? MaxScanTokenSize)%N then [token rline] else []
  | String c rest =>
    if Ascii.eqb c LF then
      if (n <? MaxScanTokenSize)%N then token rline :: scan [] 0%N rest
      else []
    else scan (c :: rline) (n + 1)%N rest
  end.

Definition Scanner := string.

Definition NewScanner (r : string) : Scanner := r.

Definition Tokens (sc : Scanner) : list string := scan [] 0%N sc.

End bufio.

(* ================================================================== *)
(** ** Go values used by the command *)

Import strings.

(** Error numbers carried by the path errors of package [os]. *)
Inductive Errno : Type := ENOENT | EACCES | ENOTDIR | EEXIST | EIO.

(** Values of the interface type [error] that can reach [run]. *)
Inductive error : Type :=
| errorString (msg : string)                     (* errors.New(msg) *)
| PathError (op path : string) (errno : Errno)   (* *fs.PathError *)
| url_Error (op url msg : string)                (* *url.Error *)
| ErrDownloadAborted                             (* got.ErrDownloadAborted *)
| got_Error (msg : string).                      (* a failure of the engine *)

(** [errors.New]. *)
Definition errors_New (msg : string) : error := errorString msg.

(** [os.IsNotExist], applied to the error component of a result. *)
Definition os_IsNotExist (err : option error) : bool :=
  match err with
  | Some (PathError _ _ ENOENT) => true
  | _ => false
  end.

(** [fs.FileInfo], as far as [run] looks at it. *)
Record FileInfo : Type := { Mode : Z; Size : Z }.

(** [os.ModeNamedPipe]: bit 25 of a [FileMode]. *)
Definition ModeNamedPipe : Z := Z.shiftl 1 (32 - 1 - 6).

(** [url.Userinfo] and [url.URL]. *)
Record Userinfo : Type :=
  { username : string; password : string; passwordSet : bool }.

Record URL : Type :=
  { Scheme : string; Opaque : string; User : option Userinfo;
    Host : string; Path : string; RawPath : string;
    OmitHost : bool; ForceQuery : bool; RawQuery : string;
    Fragment : string; RawFragment : string }.

(** The assignment [u.Scheme = s]. *)
Definition set_Scheme (u : URL) (s : string) : URL :=
  {| Scheme := s; Opaque := Opaque u; User := User u; Host := Host u;
     Path := Path u; RawPath := RawPath u; OmitHost := OmitHost u;
     ForceQuery := ForceQuery u; RawQuery := RawQuery u;
     Fragment := Fragment u; RawFragment := RawFragment u |}.

(** [got.GotHeader] and the fields of [got.Download] that [download]
    fills in. *)
Record GotHeader : Type := { Key : string; Value : string }.

Record Download : Type :=
  { URL_ : string; Dir : string; Dest : string;
    Header : list GotHeader; Interval : Z;
    ChunkSize : Z; Concurrency : Z }.

(** The flags and arguments held by the [cli.Context] of the action.  A
    [StringSlice] flag that was not given is the nil slice, over which
    [range] does not iterate: it is the empty list here. *)
Record cli_Context : Type :=
  { flag_output : string; flag_dir : string; flag_file : string;
    flag_size : Z; flag_concurrency : Z; flag_header : list string;
    flag_agent : string; Args : list string }.

(* ================================================================== *)
(** ** The outside world *)

(** What [run] calls but does not define: the URL parser and printer of
    [net/url], the file system and standard input of [os], and the
    download engine (the method [Do] of [got.Got]).  [W] is the state of
    everything outside the process. *)
Class World : Type :=
  { W : Type;
    url_Parse : string -> URL + error;
    url_String : URL -> string;
    Stdin_Stat : W -> FileInfo + error;
    Stdin_bytes : W -> string;
    os_Stat : W -> string -> option error;
    os_MkdirAll : W -> string -> W * option error;
    os_Open : W -> string -> string + error;
    got_UserAgent : string;
    got_Do : W -> string -> Download -> W * option error }.

(* ================================================================== *)
(** ** The command *)

Section Command.

Context {world_ops : World}.

(** The state threaded through [run]: the outside world, the bytes that
    [os.Stdin] holds, the package variables [HeaderSlice] and
    [got.UserAgent], and three histories kept for the specification:
    the texts that [run] and [multiDownload] themselves have passed to
    [fmt.Print] and [fmt.Printf], the arguments with which [download]
    was called, and the requests handed to the engine, each with the
    engine's answer.  [printed] is not the whole of standard output: the
    progress indicator writes to the same stream while the engine works,
    and what it writes, and when, is the business of the engine and of
    the indicator, which are part of the outside world here. *)
Record State : Type :=
  { world : W;
    Stdin : string;
    HeaderSlice : list GotHeader;
    UserAgent : string;
    printed : list string;
    candidates : list string;
    submitted : list (Download * option error) }.

(** The state in which [main] calls [run]: [HeaderSlice] is nil. *)
Definition initial (w : W) : State :=
  {| world := w; Stdin := Stdin_bytes w; HeaderSlice := [];
     UserAgent := got_UserAgent; printed := []; candidates := [];
     submitted := [] |}.

Definition set_world (w : W) (s : State) : State :=
  {| world := w; Stdin := Stdin s; HeaderSlice := HeaderSlice s;
     UserAgent := UserAgent s; printed := printed s;
     candidates := candidates s; submitted := submitted s |}.

Definition set_UserAgent (a : string) (s : State) : State :=
  {| world := world s; Stdin := Stdin s; HeaderSlice := HeaderSlice s;
     UserAgent := a; printed := printed s; candidates := candidates s;
     submitted := submitted s |}.

Definition append_HeaderSlice (h : GotHeader) (s : State) : State :=
  {| world := world s; Stdin := Stdin s;
     HeaderSlice := HeaderSlice s ++ [h]; UserAgent := UserAgent s;
     printed := printed s; candidates := candidates s;
     submitted := submitted s |}.

Definition fmt_Print (text : string) (s : State) : State :=
  {| world := world s; Stdin := Stdin s; HeaderSlice := HeaderSlice s;
     UserAgent := UserAgent s; printed := printed s ++ [text];
     candidates := candidates s; submitted := submitted s |}.

Definition note_candidate (url : string) (s : State) : State :=
  {| world := world s; Stdin := Stdin s; HeaderSlice := HeaderSlice s;
     UserAgent := UserAgent s; printed := printed s;
     candidates := candidates s ++ [url]; submitted := submitted s |}.

Definition note_submitted (w : W) (d : Download) (r : option error)
    (s : State) : State :=
  {| world := w; Stdin := Stdin s; HeaderSlice := HeaderSlice s;
     UserAgent := UserAgent s; printed := printed s;
     candidates := candidates s; submitted := submitted s ++ [(d, r)] |}.

(** A statement of [run]: it changes the state and returns an [error],
    [None] being Go's [nil]. *)
Definition stmt : Type := State -> State * option error.

Definition skip : stmt := fun s => (s, None).

Definition ret (err : error) : stmt := fun s => (s, Some err).

Definition lift (f : State -> State) : stmt := fun s => (f s, None).

(** [seq a b]: [a], then [b] unless [a] returned an error. *)
Definition seq (a b : stmt) : stmt :=
  fun s => match a s with
           | (s', None) => b s'
           | (s', Some err) => (s', Some err)
           end.

Definition when (b : bool) (a : stmt) : stmt := if b then a else skip.

Definition ESC : ascii := "027".
Definition clearLine : string := String ESC "[2K".
Definition checkMark : string :=
  String "226" (String "156" (String "148" " ")).
Definition newline : string := String bufio.LF "".

(** [getURL]. *)
Definition getURL (raw : string) : string * option error :=
  match url_Parse raw with
  | inr err => ("", Some err)
  | inl u =>
    let u := if String.eqb (Scheme u) "" then set_Scheme u "https" else u in
    (url_String u, None)
  end.

(** The request that [download] builds for the normalized [url]. *)
Definition request (c : cli_Context) (url : string) (s : State) : Download :=
  {| URL_ := url; Dir := flag_dir c; Dest := flag_output c;
     Header := HeaderSlice s; Interval := 150;
     ChunkSize := flag_size c; Concurrency := flag_concurrency c |}.

(** [download]. *)
Definition download (c : cli_Context) (url : string) : stmt :=
  fun s =>
    let s := note_candidate url s in
    match getURL url with
    | (_, Some err) => (s, Some err)
    | (url, None) =>
      let d := request c url s in
      let (w, r) := got_Do (world s) (UserAgent s) d in
      (note_submitted w d r s, r)
    end.

(** The two prints that follow a successful download. *)
Definition done (url : string) : stmt :=
  lift (fun s => fmt_Print (checkMark ++ url ++ newline)
                           (fmt_Print clearLine s)).

(** The loop of [multiDownload], over the tokens its scanner delivers. *)
Fixpoint forTokens (c : cli_Context) (tokens : list string) : stmt :=
  match tokens with
  | [] => skip
  | text :: rest =>
    let url := TrimSpace text in
    if String.eqb url "" then forTokens c rest
    else seq (download c url) (seq (done url) (forTokens c rest))
  end.

(** [multiDownload]. *)
Definition multiDownload (c : cli_Context) (scanner : bufio.Scanner) : stmt :=
  forTokens c (bufio.Tokens scanner).

(** The loop of [run] over the header flags. *)
Fixpoint forHeaders (header : list string) : stmt :=
  match header with
  | [] => skip
  | h :: rest =>
    let split := SplitN2 h ":" in
    if Nat.eqb (List.length split) 1 then
      ret (errors_New ("malformatted header " ++ h))
    else
      seq (lift (append_HeaderSlice
                   {| Key := nth 0 split "";
                      Value := TrimSpace (nth 1 split "") |}))
          (forHeaders rest)
  end.

(** The loop of [run] over the positional arguments. *)
Fixpoint forArgs (c : cli_Context) (args : list string) : stmt :=
  match args with
  | [] => skip
  | url :: rest => seq (download c url) (seq (done url) (forArgs c rest))
  end.

(** "Create dir if not exists": the result of [os.MkdirAll] is dropped. *)
Definition createDir (c : cli_Context) : stmt :=
  lift (fun s =>
    if negb (String.eqb (flag_dir c) "") then
      if os_IsNotExist (os_Stat (world s) (flag_dir c)) then
        set_world (fst (os_MkdirAll (world s) (flag_dir c))) s
      else s
    else s).

(** "Set default user agent". *)
Definition setAgent (c : cli_Context) : stmt :=
  lift (fun s =>
    if negb (String.eqb (flag_agent c) "") then set_UserAgent (flag_agent c) s
    else s).

(** The condition under which standard input is read. *)
Definition piped (info : FileInfo) : bool :=
  (Z.land (Mode info) ModeNamedPipe >? 0)%Z || (Size info >? 0)%Z.

(** "Piped stdin". *)
Definition pipedStdin (c : cli_Context) (info : FileInfo) : stmt :=
  fun s => when (piped info) (multiDownload c (bufio.NewScanner (Stdin s))) s.

(** "Batch file". *)
Definition batchFile (c : cli_Context) : stmt :=
  when (negb (String.eqb (flag_file c) ""))
       (fun s => match os_Open (world s) (flag_file c) with
                 | inr err => (s, Some err)
                 | inl file => multiDownload c (bufio.NewScanner file) s
                 end).

(** The header flags. *)
Definition headerFlags (c : cli_Context) : stmt := forHeaders (flag_header c).

(** "Download from args". *)
Definition fromArgs (c : cli_Context) : stmt := forArgs c (Args c).

(** [run] from the header flags on. *)
Definition fromHeaders (c : cli_Context) : stmt :=
  seq (headerFlags c) (fromArgs c).

(** [run] from the batch file on. *)
Definition fromBatch (c : cli_Context) : stmt :=
  seq (batchFile c) (fromHeaders c).

(** [run] after the directory has been looked after. *)
Definition afterDir (c : cli_Context) (info : FileInfo) : stmt :=
  seq (setAgent c) (seq (pipedStdin c info) (fromBatch c)).

(** [run], once standard input has been examined. *)
Definition body (c : cli_Context) (info : FileInfo) : stmt :=
  seq (createDir c) (afterDir c info).

(** [run]. *)
Definition run (c : cli_Context) : stmt :=
  fun s => match Stdin_Stat (world s) with
           | inr err => (s, Some err)
           | inl info => body c info s
           end.

(** One invocation of the command in the world [w]. *)
Definition main_run (c : cli_Context) (w : W) : State * option error :=
  run c (initial w).

(** [run] up to and including the reading of standard input. *)
Definition throughStdin (c : cli_Context) (info : FileInfo) : stmt :=
  seq (createDir c) (seq (setAgent c) (pipedStdin c info)).

(** [run] up to the header flags. *)
Definition beforeHeaders (c : cli_Context) (info : FileInfo) : stmt :=
  seq (throughStdin c info) (batchFile c).

(** The candidates a line source yields: the trimmed tokens of its
    scanner that are not empty. *)
Definition yielded (input : string) : list string :=
  filter (fun url => negb (String.eqb url ""))
         (map TrimSpace (bufio.Tokens (bufio.NewScanner input))).

End Command.

(* ================================================================== *)
(** ** The progress callback installed by [run] *)

Module bridge.

Open Scope Z_scope.

(** Modelled from the spec: what the accessors [TotalSize] and [Size] of
    the in-progress [got.Download] return when the callback fires, the
    total size and the bytes transferred so far, both [uint64]. *)
Record Snapshot : Type := { TotalSize : Z; Size : Z }.

(** The conversion [int(x)] of a [uint64], on a 64-bit platform. *)
Definition int (x : Z) : Z := if x <? 2 ^ 63 then x else x - 2 ^ 64.

(** Addition of [int64], wrapping around. *)
Definition add64 (a b : Z) : Z := (a + b + 2 ^ 63) mod 2 ^ 64 - 2 ^ 63.

(** The indicator (progressbar/v3): its upper bound and its position. *)
Record ProgressBar : Type := { max : Z; currentNum : Z }.

(** [progressbar.New]. *)
Definition New (m : Z) : ProgressBar := {| max := m; currentNum := 0 |}.

(** [ChangeMax]: the upper bound is replaced, the position is kept. *)
Definition ChangeMax (p : ProgressBar) (newMax : Z) : ProgressBar :=
  {| max := newMax; currentNum := currentNum p |}.

(** [Add]: the position advances by [num], unless the upper bound is 0
    (an error, which the callback drops) or already reached. *)
Definition Add (p : ProgressBar) (num : Z) : ProgressBar :=
  if max p =? 0 then p
  else if currentNum p <? max p
       then {| max := max p; currentNum := add64 (currentNum p) num |}
       else p.

(** [g.ProgressFunc], the function literal in [run]. *)
Definition ProgressFunc (p : ProgressBar) (d : Snapshot) : ProgressBar :=
  Add (ChangeMax p (int (TotalSize d))) (int (Size d)).

(** The indicator after the callback has fired on each of [ds] in turn,
    starting from the indicator that [run] creates. *)
Definition after (ds : list Snapshot) : ProgressBar :=
  fold_left ProgressFunc ds (New 0).

(** The same from any indicator [p]: [run] creates one indicator and
    every download of the run reports to it, so that a download starts
    where the one before has left the indicator. *)
Definition resumed (p : ProgressBar) (ds : list Snapshot) : ProgressBar :=
  fold_left ProgressFunc ds p.

End bridge.

(* ================================================================== *)
(** ** The interrupt listener started by [main] *)

Module listener.

(** The signals that [signal.Notify] relays ([SIGKILL] cannot be caught
    and never reaches the channel). *)
Inductive Signal : Type := SIGINT | SIGTERM.

(** The run context. *)
Inductive Ctx : Type := Active | Cancelled.

(** Where the goroutine stands: before the receive, before [cancel()],
    before [signal.Stop], before [log.Fatal]; [AtExit] inside
    [log.Fatal], which is [log.Output] followed by [os.Exit(1)]: the line
    is written and [os.Exit] is not yet called; [Exited] once [os.Exit]
    has ended the process, [Killed] once a signal has. *)
Inductive Pc : Type :=
  AtReceive | AtCancel | AtStop | AtFatal | AtExit | Exited | Killed.

(** [interruptChan] has capacity 1; [relaying] holds from [signal.Notify]
    until [signal.Stop]; [transitions] counts the changes of [ctx] from
    [Active] to [Cancelled]. *)
Record state : Type :=
  { interruptChan : option Signal;
    relaying : bool;
    pc : Pc;
    ctx : Ctx;
    logged : list error;
    transitions : nat }.

(** [main] has created the context and the channel, has called
    [signal.Notify] and has started the goroutine. *)
Definition start : state :=
  {| interruptChan := None; relaying := true; pc := AtReceive;
     ctx := Active; logged := []; transitions := 0 |}.

(** The [CancelFunc] of [context.WithCancel]: the first call cancels the
    context, later calls do nothing. *)
Definition cancel (s : state) : state :=
  match ctx s with
  | Active =>
    {| interruptChan := interruptChan s; relaying := relaying s;
       pc := pc s; ctx := Cancelled; logged := logged s;
       transitions := S (transitions s) |}
  | Cancelled => s
  end.

Definition goto (l : Pc) (s : state) : state :=
  {| interruptChan := interruptChan s; relaying := relaying s; pc := l;
     ctx := ctx s; logged := logged s; transitions := transitions s |}.

(** The operating system delivers a signal to the process.  While
    package [signal] relays, it sends the signal to the channel without
    blocking, so the signal is dropped when the channel is full.  Once
    [signal.Stop] has undone [signal.Notify], the default behaviour of
    the signal is back: the process exits.  A process that is gone
    receives nothing. *)
Definition deliver (sig : Signal) (s : state) : state :=
  match pc s with
  | Exited | Killed => s
  | _ =>
    if relaying s then
      match interruptChan s with
      | None =>
        {| interruptChan := Some sig; relaying := relaying s; pc := pc s;
           ctx := ctx s; logged := logged s; transitions := transitions s |}
      | Some _ => s
      end
    else goto Killed s
  end.

(** The first half of [log.Fatal]: the line is written. *)
Definition log_Output (s : state) : state :=
  {| interruptChan := interruptChan s; relaying := relaying s;
     pc := AtExit; ctx := ctx s;
     logged := logged s ++ [ErrDownloadAborted];
     transitions := transitions s |}.

(** The second half of [log.Fatal]: the process ends. *)
Definition os_Exit (s : state) : state := goto Exited s.

(** The goroutine runs to the end of the statement it is in; the receive
    blocks on an empty channel.  At [AtFatal] this is the whole of
    [log.Fatal] with no signal in between; at [AtExit] it is what is
    left of it. *)
Definition advance (s : state) : state :=
  match pc s with
  | AtReceive =>
    match interruptChan s with
    | None => s
    | Some _ =>
      {| interruptChan := None; relaying := relaying s; pc := AtCancel;
         ctx := ctx s; logged := logged s; transitions := transitions s |}
    end
  | AtCancel => goto AtStop (cancel s)
  | AtStop =>
    {| interruptChan := interruptChan s; relaying := false; pc := AtFatal;
       ctx := ctx s; logged := logged s; transitions := transitions s |}
  | AtFatal => os_Exit (log_Output s)
  | AtExit => os_Exit s
  | Exited | Killed => s
  end.

(** The goroutine, about to call [log.Fatal], runs it as far as the
    written line and is interrupted there: [log.Fatal] is not atomic, a
    signal can arrive between its line and its [os.Exit].  Anywhere else
    this does nothing. *)
Definition enterFatal (s : state) : state :=
  match pc s with
  | AtFatal => log_Output s
  | _ => s
  end.

(** What can happen next: a signal arrives, the goroutine completes a
    statement, or the goroutine stops halfway through [log.Fatal].  A
    run in which a signal arrives inside [log.Fatal] has [LogLine]
    before that signal in its schedule; a run in which none does has
    [Advance] for the whole of [log.Fatal], or [LogLine] and then
    [Advance], which is the same. *)
Inductive event : Type := Deliver (sig : Signal) | Advance | LogLine.

Definition exec (s : state) (e : event) : state :=
  match e with
  | Deliver sig => deliver sig s
  | Advance => advance s
  | LogLine => enterFatal s
  end.

(** The state after a schedule of events. *)
Definition after (schedule : list event) : state :=
  fold_left exec schedule start.

(** The number of signals that a schedule delivers. *)
Definition delivered (schedule : list event) : nat :=
  List.length
    (filter (fun e => match e with Deliver _ => true | _ => false end)
            schedule).

(** What holds at each point of the goroutine. *)
Definition invariant (s : state) : Prop :=
  match pc s with
  | AtReceive | AtCancel =>
    relaying s = true /\ ctx s = Active /\ transitions s = 0 /\ logged s = []
  | AtStop =>
    relaying s = true /\
    ctx s = Cancelled /\ transitions s = 1 /\ logged s = []
  | AtFatal =>
    relaying s = false /\
    ctx s = Cancelled /\ transitions s = 1 /\ logged s = []
  | AtExit | Exited =>
    relaying s = false /\
    ctx s = Cancelled /\ transitions s = 1 /\
    logged s = [ErrDownloadAborted]
  | Killed =>
    relaying s = false /\
    ctx s = Cancelled /\ transitions s = 1 /\
    (logged s = [] \/ logged s = [ErrDownloadAborted])
  end.

End listener.

(* ================================================================== *)
(** ** A small world for the examples

    A stand-in for the outside world, used by the examples only: a URL
    parser and printer for plain [scheme://host/path] texts (no escaping,
    user information, query or fragment), a file system given by a list
    of files and directories, and an engine that fails on the URLs listed
    as unreachable. *)

Module demo.

Definition isLetter (c : ascii) : bool :=
  ((97 <=? code c) && (code c <=? 122)
   || (65 <=? code c) && (code c <=? 90))%N.

Definition isSchemeByte (c : ascii) : bool :=
  (isLetter c || (48 <=? code c) && (code c <=? 57)
   || (code c =? 43) || (code c =? 45) || (code c =? 46))%N.

Definition isCTL (c : ascii) : bool := ((code c <? 32) || (code c =? 127))%N.

Definition toLower (c : ascii) : ascii :=
  if ((65 <=? code c) && (code c <=? 90))%N
  then ascii_of_N (code c + 32) else c.

Fixpoint all (p : ascii -> bool) (s : string) : bool :=
  match s with
  | EmptyString => true
  | String c r => p c && all p r
  end.

Fixpoint mapString (f : ascii -> ascii) (s : string) : string :=
  match s with
  | EmptyString => EmptyString
  | String c r => String (f c) (mapString f r)
  end.

Definition hasPrefix (p s : string) : bool := String.prefix p s.

Definition emptyURL : URL :=
  {| Scheme := ""; Opaque := ""; User := None; Host := ""; Path := "";
     RawPath := ""; OmitHost := false; ForceQuery := false;
     RawQuery := ""; Fragment := ""; RawFragment := "" |}.

(** The scheme and the rest, [None] for "missing protocol scheme". *)
Definition getScheme (raw : string) : option (string * string) :=
  match Cut raw ":" with
  | None => Some ("", raw)
  | Some (EmptyString, _) => None
  | Some (String c k, rest) =>
    if isLetter c && all isSchemeByte k then Some (String c k, rest)
    else Some ("", raw)
  end.

Definition firstSegment (path : string) : string :=
  match Cut path "/" with
  | Some (seg, _) => seg
  | None => path
  end.

Definition withPath (u : URL) (h p : string) (omit : bool) : URL :=
  {| Scheme := Scheme u; Opaque := ""; User := None; Host := h; Path := p;
     RawPath := ""; OmitHost := omit; ForceQuery := false;
     RawQuery := ""; Fragment := ""; RawFragment := "" |}.

Definition Parse (raw : string) : URL + error :=
  if negb (all (fun c => negb (isCTL c)) raw) then
    inr (url_Error "parse" raw "net/url: invalid control character in URL")
  else
    match getScheme raw with
    | None => inr (url_Error "parse" raw "missing protocol scheme")
    | Some (scheme, rest) =>
      let u := set_Scheme emptyURL (mapString toLower scheme) in
      if negb (hasPrefix "/" rest) then
        if negb (String.eqb scheme "") then
          inl {| Scheme := Scheme u; Opaque := rest; User := None;
                 Host := ""; Path := ""; RawPath := ""; OmitHost := false;
                 ForceQuery := false; RawQuery := ""; Fragment := "";
                 RawFragment := "" |}
        else if Contains (firstSegment rest) ":" then
          inr (url_Error "parse" raw
                 "first path segment in URL cannot contain colon")
        else inl (withPath u "" rest false)
      else if (negb (String.eqb scheme "") || negb (hasPrefix "///" rest))
              && hasPrefix "//" rest then
        let authority := String.substring 2 (String.length rest - 2) rest in
        match Cut authority "/" with
        | Some (h, p) => inl (withPath u h (String "/" p) false)
        | None => inl (withPath u authority "" false)
        end
      else inl (withPath u "" rest (negb (String.eqb scheme "")))
    end.

Definition String_ (u : URL) : string :=
  let scheme := if String.eqb (Scheme u) "" then "" else Scheme u ++ ":" in
  if negb (String.eqb (Opaque u) "") then scheme ++ Opaque u
  else
    let authority :=
      if negb (String.eqb (Scheme u) "") || negb (String.eqb (Host u) "") then
        if OmitHost u && String.eqb (Host u) "" then ""
        else (if negb (String.eqb (Host u) "")
                 || negb (String.eqb (Path u) "") then "//" else "")
             ++ Host u
      else "" in
    let slash :=
      if negb (String.eqb (Path u) "") && negb (hasPrefix "/" (Path u))
         && negb (String.eqb (Host u) "") then "/" else "" in
    let dot :=
      if String.eqb (scheme ++ authority ++ slash) ""
         && Contains (firstSegment (Path u)) ":" then "./" else "" in
    scheme ++ authority ++ slash ++ dot ++ Path u.

(** The state of the small world. *)
Record Disk : Type :=
  { stdinMode : Z;
    stdinData : string;
    files : list (string * string);
    dirs : list string;
    readOnly : bool;
    unreachable : list string;
    fetched : list string }.

Definition lookup (path : string) (fs : list (string * string))
    : option string :=
  match find (fun kv => String.eqb (fst kv) path) fs with
  | Some kv => Some (snd kv)
  | None => None
  end.

Definition Stat (w : Disk) (path : string) : option error :=
  if existsb (String.eqb path) (dirs w) then None
  else Some (PathError "stat" path ENOENT).

Definition MkdirAll (w : Disk) (path : string) : Disk * option error :=
  if readOnly w then (w, Some (PathError "mkdir" path EACCES))
  else ({| stdinMode := stdinMode w; stdinData := stdinData w;
           files := files w; dirs := path :: dirs w;
           readOnly := readOnly w; unreachable := unreachable w;
           fetched := fetched w |}, None).

Definition Open (w : Disk) (path : string) : string + error :=
  match lookup path (files w) with
  | Some data => inl data
  | None => inr (PathError "open" path ENOENT)
  end.

Definition Do (w : Disk) (agent : string) (d : Download)
    : Disk * option error :=
  if existsb (String.eqb (URL_ d)) (unreachable w) then
    (w, Some (got_Error ("cannot fetch " ++ URL_ d)))
  else ({| stdinMode := stdinMode w; stdinData := stdinData w;
           files := files w; dirs := dirs w; readOnly := readOnly w;
           unreachable := unreachable w;
           fetched := fetched w ++ [URL_ d] |}, None).

#[export] Instance small_world : World :=
  {| W := Disk;
     url_Parse := Parse;
     url_String := String_;
     Stdin_Stat := fun w =>
       inl {| Mode := stdinMode w;
              Size := Z.of_nat (String.length (stdinData w)) |};
     Stdin_bytes := stdinData;
     os_Stat := Stat;
     os_MkdirAll := MkdirAll;
     os_Open := Open;
     got_UserAgent := "got";
     got_Do := Do |}.

(** A terminal on standard input, nothing on disk, every URL reachable. *)
Definition quiet : W :=
  {| stdinMode := 0; stdinData := ""; files := []; dirs := [];
     readOnly := false; unreachable := []; fetched := [] |}.

Definition withStdin (data : string) (w : Disk) : W :=
  {| stdinMode := ModeNamedPipe; stdinData := data; files := files w;
     dirs := dirs w; readOnly := readOnly w; unreachable := unreachable w;
     fetched := fetched w |}.


Definition withUnreachable (url : string) (w : Disk) : W :=
  {| stdinMode := stdinMode w; stdinData := stdinData w; files := files w;
     dirs := dirs w; readOnly := readOnly w;
     unreachable := url :: unreachable w; fetched := fetched w |}.

Definition withReadOnly (w : Disk) : W :=
  {| stdinMode := stdinMode w; stdinData := stdinData w; files := files w;
     dirs := dirs w; readOnly := true; unreachable := unreachable w;
     fetched := fetched w |}.

(** No flag and no argument given. *)
Definition noFlags : cli_Context :=
  {| flag_output := ""; flag_dir := ""; flag_file := ""; flag_size := 0;
     flag_concurrency := 0; flag_header := []; flag_agent := "";
     Args := [] |}.

Definition withArgs (args : list string) (c : cli_Context) : cli_Context :=
  {| flag_output := flag_output c; flag_dir := flag_dir c;
     flag_file := flag_file c; flag_size := flag_size c;
     flag_concurrency := flag_concurrency c; flag_header := flag_header c;
     flag_agent := flag_agent c; Args := args |}.

Definition withHeader (hs : list string) (c : cli_Context) : cli_Context :=
  {| flag_output := flag_output c; flag_dir := flag_dir c;
     flag_file := flag_file c; flag_size := flag_size c;
     flag_concurrency := flag_concurrency c; flag_header := hs;
     flag_agent := flag_agent c; Args := Args c |}.

Definition withBatch (path : string) (c : cli_Context) : cli_Context :=
  {| flag_output := flag_output c; flag_dir := flag_dir c;
     flag_file := path; flag_size := flag_size c;
     flag_concurrency := flag_concurrency c; flag_header := flag_header c;
     flag_agent := flag_agent c; Args := Args c |}.

Definition withDir (path : string) (c : cli_Context) : cli_Context :=
  {| flag_output := flag_output c; flag_dir := path;
     flag_file := flag_file c; flag_size := flag_size c;
     flag_concurrency := flag_concurrency c; flag_header := flag_header c;
     flag_agent := flag_agent c; Args := Args c |}.

(** Text with line feeds: [text ["a"; "b"]] is a, LF, b, LF. *)
Fixpoint text (ls : list string) : string :=
  match ls with
  | [] => ""
  | l :: r => l ++ String bufio.LF (text r)
  end.

(** A first line of 64 KiB, then the line b. *)
Definition longInput : string :=
  text [string_of_list_ascii (repeat "a"%char (2 ^ 16)); "b"].

End demo.

(* ================================================================== *)
(** ** The words of the specification *)

Module spec.

(** The lines of a text: the pieces that line feeds end, and a last piece
    without line feed when it is not empty.  [rline] holds the bytes of
    the current line, reversed. *)
Fixpoint lines_from (rline : list ascii) (input : string) : list string :=
  match input with
  | EmptyString =>
    match rline with
    | [] => []
    | _ :: _ => [string_of_list_ascii (rev' rline)]
    end
  | String c rest =>
    if Ascii.eqb c bufio.LF
    then string_of_list_ascii (rev' rline) :: lines_from [] rest
    else lines_from (c :: rline) rest
  end.

Definition lines (input : string) : list string := lines_from [] input.

(** "Trims whitespace per line, skips empty lines, and yields one
    candidate per non-empty line, in file order." *)
Definition candidates (input : string) : list string :=
  filter (fun url => negb (String.eqb url "")) (map TrimSpace (lines input)).

(** A line that the scanner's buffer can hold. *)
Definition fits (line : string) : Prop :=
  (N.of_nat (String.length line) < bufio.MaxScanTokenSize)%N.

(** "Exactly one HeaderEntry whose key is the substring before the first
    colon and whose value is the remainder with leading whitespace
    trimmed." *)
Definition header_entry (h : string) : option GotHeader :=
  match Cut h ":" with
  | Some (k, v) => Some {| Key := k; Value := TrimLeft v |}
  | None => None
  end.

(** "After each call the displayed position equals the reported
    cumulative bytes transferred": the position after the calls [ds]. *)
Definition position (ds : list bridge.Snapshot) : Z :=
  last (map bridge.Size ds) 0%Z.

End spec.

(** [p] is an initial part of [l]. *)
Definition prefix {A : Type} (p l : list A) : Prop :=
  exists rest, l = (p ++ rest)%list.

(* ================================================================== *)
(** ** The vocabulary of the statements below *)

Section Vocabulary.

Context {world_ops : World}.

(** From a state that satisfies [I], the statement [m] ends in a state
    and with a result that satisfy [Q]. *)
Definition triple (I : State -> Prop) (m : stmt)
    (Q : State -> option error -> Prop) : Prop :=
  forall s, I s -> Q (fst (m s)) (snd (m s)).

(** Fail-fast, on the history of submissions: a submission that the
    engine failed is the last one, and its error is the result [r]. *)
Definition fail_fast (s : State) (r : option error) : Prop :=
  forall k d e,
    nth_error (submitted s) k = Some (d, Some e) ->
    S k = List.length (submitted s) /\ r = Some e.

(** The request [entry] carries the normal form of the candidate. *)
Definition normalized (cand : string) (entry : Download * option error)
    : Prop :=
  getURL cand = (URL_ (fst entry), None).

(** Every candidate so far was normalized and submitted, in order. *)
Definition aligned (s : State) : Prop :=
  Forall2 normalized (candidates s) (submitted s).

(** No header has been read, and no request so far carries one. *)
Definition headerless (s : State) : Prop :=
  HeaderSlice s = [] /\
  Forall (fun entry => Header (fst entry) = []) (submitted s).

(** From [s], the statement [m] calls [download] on an initial part of
    [l], and on all of [l] when it returns no error. *)
Definition yieldsAt (s : State) (m : stmt) (l : list string) : Prop :=
  exists called,
    candidates (fst (m s)) = (candidates s ++ called)%list /\
    prefix called l /\
    (snd (m s) = None -> called = l).

(** The engine was handed the normal form of [url], in the request of
    [entry], and reported no error. *)
Definition succeeded (url : string) (entry : Download * option error)
    : Prop :=
  getURL url = (URL_ (fst entry), None) /\ snd entry = None.

(** [download] on [url] has returned the error [err] and has added the
    submissions [new]: either [url] did not parse, [err] is the parser's
    error and nothing was submitted; or the engine was handed the normal
    form of [url] and reported [err]. *)
Definition failed (url : string) (err : error)
    (new : list (Download * option error)) : Prop :=
  (url_Parse url = inr err /\ new = []) \/
  (exists d, getURL url = (URL_ d, None) /\ new = [(d, Some err)]).

(** What a loop over the URLs [l] has done when it returns [r], having
    called [download] on [called] and added the submissions [new].
    With [r] nil: it has called [download] on every URL of [l], once and
    in order, and each one was submitted and succeeded.  With [r] an
    error: it has stopped at one URL of [l]; the URLs before it were
    submitted and succeeded, each once and in order, [download] failed
    on it with the error [r], and the URLs after it were not touched. *)
Definition dispatched (l called : list string)
    (new : list (Download * option error)) (r : option error) : Prop :=
  match r with
  | None => called = l /\ Forall2 succeeded l new
  | Some err =>
    exists before url rest ok bad,
      l = (before ++ url :: rest)%list /\
      called = (before ++ [url])%list /\
      new = (ok ++ bad)%list /\
      Forall2 succeeded before ok /\
      failed url err bad
  end.

(** From [s], the statement [m] dispatches the URLs [l]: the calls of
    [download] and the submissions that it adds to the histories and the
    error that it returns are as [dispatched] says. *)
Definition dispatchesAt (s : State) (m : stmt) (l : list string) : Prop :=
  exists called new,
    candidates (fst (m s)) = (candidates s ++ called)%list /\
    submitted (fst (m s)) = (submitted s ++ new)%list /\
    dispatched l called new (snd (m s)).

End Vocabulary.

(* ================================================================== *)
(** ** Terminal colours (variables_unix.go and its Windows counterpart) *)

Module terminal.

(** An operand of [fmt.Sprint]: a string, or a value of another type
    given by the text of its default format. *)
Inductive operand : Type := Str (s : string) | Val (text : string).

Definition isString (arg : operand) : bool :=
  match arg with Str _ => true | Val _ => false end.

Definition text_of (arg : operand) : string :=
  match arg with Str s => s | Val t => t end.

(** The loop of [fmt.Sprint]: a space goes between two operands when
    neither is a string.  [first] tells whether the operand at the head
    is the first one, [prevString] whether the one before was a string. *)
Fixpoint doPrint (first prevString : bool) (a : list operand) : string :=
  match a with
  | [] => ""
  | arg :: rest =>
    (if negb first && negb (isString arg) && negb prevString then " " else "")
    ++ text_of arg ++ doPrint false (isString arg) rest
  end.

(** [fmt.Sprint]. *)
Definition Sprint (a : list operand) : string := doPrint true false a.

Definition blue : string := String "027" "[34m".
Definition reset : string := String "027" "[0m".

(** [color] where the build tag is [!windows]: [fmt.Sprintf] with the
    format ESC[34m%sESC[0m. *)
Definition color_unix (content : list operand) : string :=
  blue ++ Sprint content ++ reset.

(** [color] on Windows. *)
Definition color_windows (content : list operand) : string :=
  Sprint content.

(** The text of a list of operands without any separator. *)
Fixpoint joined (a : list operand) : string :=
  match a with
  | [] => ""
  | arg :: rest => text_of arg ++ joined rest
  end.

End terminal.

(* ================================================================== *)
(** ** More vocabulary *)

Section MoreVocabulary.

Context {world_ops : World}.

(** The entry that the header loop appends for the flag [h]. *)
Definition headerEntry (h : string) : GotHeader :=
  {| Key := nth 0 (SplitN2 h ":") "";
     Value := TrimSpace (nth 1 (SplitN2 h ":") "") |}.

(** The state after the entries of the flags [hs] have been appended. *)
Definition withHeaders (hs : list string) (s : State) : State :=
  fold_left (fun s h => append_HeaderSlice (headerEntry h) s) hs s.

(** What is printed when the download of [url] has succeeded. *)
Definition marker (url : string) : list string :=
  [clearLine; checkMark ++ url ++ newline].

(** The request [d] carries the flags of [c] and the fixed interval. *)
Definition carriesFlags (c : cli_Context) (d : Download) : Prop :=
  Dir d = flag_dir c /\ Dest d = flag_output c /\ Interval d = 150%Z /\
  ChunkSize d = flag_size c /\ Concurrency d = flag_concurrency c.

(** A header entry as the loop makes them: no colon in the key, no white
    space around the value. *)
Definition tidyEntry (e : GotHeader) : Prop :=
  Contains (Key e) ":" = false /\ TrimSpace (Value e) = Value e.

(** A candidate as a line source makes them: not empty, no white space
    around it, no line feed in it, shorter than the scanner's buffer. *)
Definition tidyCandidate (url : string) : Prop :=
  url <> "" /\ TrimSpace url = url /\ Contains url bufio.LF = false /\
  (N.of_nat (String.length url) < bufio.MaxScanTokenSize)%N.

(** Whether the first rune of [s] is white space; [endsSpace] is the
    same for the last rune, on the reversed bytes. *)
Definition startsSpace (s : list ascii) : bool :=
  match s with
  | [] => false
  | c1 :: r1 =>
    asciiSpace c1 ||
    match r1 with
    | [] => false
    | c2 :: r2 =>
      space2 c1 c2 ||
      match r2 with
      | [] => false
      | c3 :: _ => space3 c1 c2 c3
      end
    end
  end.

Definition endsSpace (s : list ascii) : bool :=
  match s with
  | [] => false
  | c1 :: r1 =>
    asciiSpace c1 ||
    match r1 with
    | [] => false
    | c2 :: r2 =>
      space2 c2 c1 ||
      match r2 with
      | [] => false
      | c3 :: _ => space3 c3 c2 c1
      end
    end
  end.

End MoreVocabulary.

(* ================================================================== *)
(** ** Facts about [strings] *)

Lemma Cut_Some (s : string) (sep : ascii) (k v : string) :
  Cut s sep = Some (k, v) ->
  s = k ++ String sep v /\ Contains k sep = false.
Proof.
  revert k v. induction s as [|c r IH]; intros k v; simpl.
  - discriminate.
  - destruct (Ascii.eqb c sep) eqn:E.
    + intros H. inversion H; subst. apply Ascii.eqb_eq in E. subst. auto.
    + destruct (Cut r sep) as [[k' v']|]; [|discriminate].
      intros H. inversion H; subst. destruct (IH k' v eq_refl) as [-> Hk].
      simpl. rewrite E, Hk. auto.
Qed.

Lemma Cut_None (s : string) (sep : ascii) :
  Cut s sep = None <-> Contains s sep = false.
Proof.
  induction s as [|c r IH]; simpl.
  - tauto.
  - destruct (Ascii.eqb c sep); simpl.
    + split; discriminate.
    + destruct (Cut r sep) as [[k v]|].
      * split; [discriminate|]. intros H. apply IH in H. discriminate.
      * split; [|reflexivity]. intros _. now apply IH.
Qed.

Lemma Contains_Cut (s : string) (sep : ascii) :
  Contains s sep = true -> exists k v, Cut s sep = Some (k, v).
Proof.
  intros H. destruct (Cut s sep) as [[k v]|] eqn:E; eauto.
  apply Cut_None in E. congruence.
Qed.

Lemma TrimLeftSpace_CR (t : list ascii) :
  TrimLeftSpace (t ++ [bufio.CR]) =
  match TrimLeftSpace t with
  | [] => []
  | x => (x ++ [bufio.CR])%list
  end.
Proof.
  functional induction (TrimLeftSpace t).
  - reflexivity.
  - simpl. rewrite e0. exact IHl.
  - simpl. rewrite e0.
    unfold space2, bufio.CR. simpl. rewrite andb_false_r. reflexivity.
  - simpl. rewrite e0, e2. exact IHl.
  - simpl. rewrite e0, e2.
    unfold space3, bufio.CR. simpl. rewrite !andb_false_r. reflexivity.
  - simpl. rewrite e0, e2, e4. exact IHl.
  - simpl. rewrite e0, e2, e4. reflexivity.
Qed.

Lemma TrimRightSpace_CR (x : list ascii) :
  TrimRightSpace (x ++ [bufio.CR]) = TrimRightSpace x.
Proof.
  unfold TrimRightSpace, rev'. rewrite <- !rev_alt, rev_app_distr. reflexivity.
Qed.

Lemma TrimSpace_CR (t : list ascii) :
  TrimRightSpace (TrimLeftSpace (t ++ [bufio.CR])) =
  TrimRightSpace (TrimLeftSpace t).
Proof.
  rewrite TrimLeftSpace_CR.
  destruct (TrimLeftSpace t) as [|a x]; [reflexivity|].
  apply TrimRightSpace_CR.
Qed.

Lemma TrimSpace_token (rline : list ascii) :
  TrimSpace (bufio.token rline) = TrimSpace (string_of_list_ascii (rev' rline)).
Proof.
  unfold TrimSpace, bufio.token, rev'. rewrite <- !rev_alt.
  rewrite !list_ascii_of_string_of_list_ascii.
  destruct rline as [|c r]; [reflexivity|].
  simpl bufio.dropCR. destruct (Ascii.eqb c bufio.CR) eqn:E; [|reflexivity].
  apply Ascii.eqb_eq in E. subst c. simpl rev. now rewrite TrimSpace_CR.
Qed.

(* ================================================================== *)
(** ** Facts about [bufio] *)

Lemma length_string_of_list_ascii (l : list ascii) :
  String.length (string_of_list_ascii l) = List.length l.
Proof. induction l; simpl; congruence. Qed.

Lemma scan_lines (input : string) :
  forall rline,
    Forall spec.fits (spec.lines_from rline input) ->
    map TrimSpace (bufio.scan rline (N.of_nat (List.length rline)) input) =
    map TrimSpace (spec.lines_from rline input).
Proof.
  induction input as [|c rest IH]; intros rline Hfit;
    cbn [spec.lines_from bufio.scan] in *.
  - destruct rline as [|a r]; [reflexivity|].
    replace (N.of_nat (List.length (a :: r)) =? 0)%N with false
      by (symmetry; apply N.eqb_neq; simpl; lia).
    pose proof (Forall_inv Hfit) as Hx. unfold spec.fits in Hx.
    unfold rev' in Hx.
    rewrite length_string_of_list_ascii, <- rev_alt, length_rev in Hx.
    apply N.ltb_lt in Hx. rewrite Hx.
    cbn [map]. now rewrite TrimSpace_token.
  - destruct (Ascii.eqb c bufio.LF).
    + pose proof (Forall_inv Hfit) as Hx.
      pose proof (Forall_inv_tail Hfit) as Hl.
      unfold spec.fits in Hx.
      unfold rev' in Hx.
    rewrite length_string_of_list_ascii, <- rev_alt, length_rev in Hx.
      apply N.ltb_lt in Hx. rewrite Hx. cbn [map].
      rewrite TrimSpace_token. f_equal. exact (IH [] Hl).
    + replace (N.of_nat (List.length rline) + 1)%N
        with (N.of_nat (List.length (c :: rline))) by (simpl; lia).
      now apply IH.
Qed.

(** The lines of a text are what was joined with line feeds. *)
Lemma string_of_list_ascii_app (a b : list ascii) :
  string_of_list_ascii (a ++ b)
  = string_of_list_ascii a ++ string_of_list_ascii b.
Proof. induction a as [|c a IH]; simpl; [reflexivity|]. now rewrite IH. Qed.

Lemma append_nil_r (s : string) : s ++ "" = s.
Proof. induction s as [|c s IH]; simpl; [reflexivity|]. now rewrite IH. Qed.

Lemma append_assoc (a b c : string) : (a ++ b) ++ c = a ++ (b ++ c).
Proof. induction a as [|x a IH]; simpl; [reflexivity|]. now rewrite IH. Qed.

Lemma lines_from_line (l : string) :
  forall rline rest,
    Contains l bufio.LF = false ->
    spec.lines_from rline (l ++ String bufio.LF rest)
    = (string_of_list_ascii (rev rline) ++ l) :: spec.lines_from [] rest.
Proof.
  induction l as [|c l IH]; intros rline rest H; simpl in *.
  - unfold rev'. now rewrite <- rev_alt, append_nil_r.
  - apply orb_false_elim in H. destruct H as [Hc Hl]. rewrite Hc.
    rewrite (IH (c :: rline) rest Hl). simpl rev.
    now rewrite string_of_list_ascii_app, append_assoc.
Qed.

Lemma lines_text (ls : list string) :
  Forall (fun l => Contains l bufio.LF = false) ls ->
  spec.lines (demo.text ls) = ls.
Proof.
  unfold spec.lines. induction 1 as [|l ls Hl _ IH]; simpl; [reflexivity|].
  now rewrite (lines_from_line l [] _ Hl), IH.
Qed.

Lemma yielded_candidates (input : string) :
  Forall spec.fits (spec.lines input) -> yielded input = spec.candidates input.
Proof.
  intros H. unfold yielded, spec.candidates, bufio.Tokens, bufio.NewScanner.
  f_equal. exact (scan_lines input [] H).
Qed.

(* ================================================================== *)
(** ** Reasoning about statements *)

Section Statements.

Context {world_ops : World}.

Variable I : State -> Prop.
Variable Q : State -> option error -> Prop.
Hypothesis Q_I : forall s, Q s None -> I s.
Hypothesis I_Q : forall s, I s -> Q s None.

Lemma triple_skip : triple I skip Q.
Proof. intros s H. now apply I_Q. Qed.

Lemma triple_seq (a b : stmt) :
  triple I a Q -> triple I b Q -> triple I (seq a b) Q.
Proof.
  intros Ha Hb s H. specialize (Ha s H). unfold seq.
  destruct (a s) as [s' [err|]]; simpl in *; [exact Ha|].
  apply Hb. now apply Q_I.
Qed.

Lemma triple_when (b : bool) (a : stmt) :
  triple I a Q -> triple I (when b a) Q.
Proof. destruct b; simpl; [auto|]. intros _. apply triple_skip. Qed.

Lemma triple_lift (f : State -> State) :
  (forall s, I s -> I (f s)) -> triple I (lift f) Q.
Proof. intros Hf s H. apply I_Q. now apply Hf. Qed.

Hypothesis I_Print : forall text s, I s -> I (fmt_Print text s).

Lemma triple_done (url : string) : triple I (done url) Q.
Proof. apply triple_lift. intros s H. now apply I_Print, I_Print. Qed.

Lemma triple_forTokens (c : cli_Context) :
  (forall url, triple I (download c url) Q) ->
  forall tokens, triple I (forTokens c tokens) Q.
Proof.
  intros Hd. induction tokens as [|t rest IH]; simpl.
  - apply triple_skip.
  - destruct (String.eqb (TrimSpace t) ""); [exact IH|].
    apply triple_seq; [apply Hd|].
    apply triple_seq; [apply triple_done|exact IH].
Qed.

Lemma triple_forArgs (c : cli_Context) :
  (forall url, triple I (download c url) Q) ->
  forall args, triple I (forArgs c args) Q.
Proof.
  intros Hd. induction args as [|t rest IH]; simpl.
  - apply triple_skip.
  - apply triple_seq; [apply Hd|].
    apply triple_seq; [apply triple_done|exact IH].
Qed.

Lemma triple_multiDownload (c : cli_Context) (scanner : bufio.Scanner) :
  (forall url, triple I (download c url) Q) ->
  triple I (multiDownload c scanner) Q.
Proof. intros Hd. now apply triple_forTokens. Qed.

Lemma triple_pipedStdin (c : cli_Context) (info : FileInfo) :
  (forall url, triple I (download c url) Q) ->
  triple I (pipedStdin c info) Q.
Proof.
  intros Hd s H. unfold pipedStdin.
  apply (triple_when (piped info) _ (triple_multiDownload c _ Hd) s H).
Qed.

Hypothesis Q_ret : forall s err, I s -> Q s (Some err).

Lemma triple_batchFile (c : cli_Context) :
  (forall url, triple I (download c url) Q) ->
  triple I (batchFile c) Q.
Proof.
  intros Hd. apply triple_when. intros s H.
  destruct (os_Open (world s) (flag_file c)) as [file|err] eqn:E.
  - apply (triple_multiDownload c _ Hd s H).
  - simpl. now apply Q_ret.
Qed.

Hypothesis I_world : forall w s, I s -> I (set_world w s).
Hypothesis I_agent : forall a s, I s -> I (set_UserAgent a s).

Lemma triple_createDir (c : cli_Context) : triple I (createDir c) Q.
Proof.
  apply triple_lift. intros s H.
  destruct (negb (String.eqb (flag_dir c) "")); [|exact H].
  destruct (os_IsNotExist _); [|exact H]. now apply I_world.
Qed.

Lemma triple_setAgent (c : cli_Context) : triple I (setAgent c) Q.
Proof.
  apply triple_lift. intros s H.
  destruct (negb (String.eqb (flag_agent c) "")); [|exact H]. now apply I_agent.
Qed.

Lemma triple_throughStdin (c : cli_Context) (info : FileInfo) :
  (forall url, triple I (download c url) Q) ->
  triple I (throughStdin c info) Q.
Proof.
  intros Hd. apply triple_seq; [apply triple_createDir|].
  apply triple_seq; [apply triple_setAgent|]. now apply triple_pipedStdin.
Qed.

Lemma triple_beforeHeaders (c : cli_Context) (info : FileInfo) :
  (forall url, triple I (download c url) Q) ->
  triple I (beforeHeaders c info) Q.
Proof.
  intros Hd. apply triple_seq; [now apply triple_throughStdin|].
  now apply triple_batchFile.
Qed.

Hypothesis I_header : forall h s, I s -> I (append_HeaderSlice h s).

Lemma triple_forHeaders (header : list string) : triple I (forHeaders header) Q.
Proof.
  induction header as [|h rest IH]; simpl.
  - apply triple_skip.
  - destruct (Nat.eqb _ 1).
    + intros s H. now apply Q_ret.
    + apply triple_seq; [|exact IH]. apply triple_lift. intros s.
      apply I_header.
Qed.

Lemma triple_run (c : cli_Context) :
  (forall url, triple I (download c url) Q) ->
  triple I (run c) Q.
Proof.
  intros Hd s H. unfold run.
  destruct (Stdin_Stat (world s)) as [info|err]; [|now apply Q_ret].
  revert s H. apply triple_seq; [apply triple_createDir|].
  apply triple_seq; [apply triple_setAgent|].
  apply triple_seq; [now apply triple_pipedStdin|].
  apply triple_seq; [now apply triple_batchFile|].
  apply triple_seq; [apply triple_forHeaders|].
  now apply triple_forArgs.
Qed.

End Statements.

Section Histories.

Context {world_ops : World}.

(** *** Fail-fast *)

Lemma fail_fast_download (c : cli_Context) (url : string) :
  triple (fun s => fail_fast s None) (download c url) fail_fast.
Proof.
  intros s H. unfold download.
  destruct (getURL url) as [u [err|]]; simpl.
  - intros k d e Hk. now destruct (H k d e Hk) as [_ ?].
  - destruct (got_Do _ _ _) as [w r]; simpl.
    intros k d e Hk. simpl in Hk |- *.
    destruct (Nat.lt_ge_cases k (List.length (submitted s))) as [Hlt|Hge].
    + rewrite nth_error_app1 in Hk by exact Hlt.
      now destruct (H k d e Hk) as [_ ?].
    + rewrite nth_error_app2 in Hk by exact Hge.
      rewrite length_app. simpl.
      destruct (k - List.length (submitted s)) as [|n] eqn:E; simpl in Hk.
      * inversion Hk; subst. split; [lia|reflexivity].
      * now destruct n.
Qed.

Lemma fail_fast_run (c : cli_Context) :
  triple (fun s => fail_fast s None) (run c) fail_fast.
Proof.
  apply triple_run; try (intros; assumption).
  - intros s err H k d e Hk. now destruct (H k d e Hk) as [_ ?].
  - apply fail_fast_download.
Qed.

Lemma fail_fast_initial (w : W) : fail_fast (initial w) None.
Proof. intros [|k] d e Hk; discriminate. Qed.

(** *** Requests sent before the header flags are read *)

Lemma headerless_download (c : cli_Context) (url : string) :
  triple headerless (download c url) (fun s _ => headerless s).
Proof.
  intros s [H1 H2]. unfold download.
  destruct (getURL url) as [u [err|]]; simpl; [now split|].
  destruct (got_Do _ _ _) as [w r]; simpl. split; [exact H1|].
  apply Forall_app. split; [exact H2|]. constructor; [exact H1|constructor].
Qed.

Lemma headerless_beforeHeaders (c : cli_Context) (info : FileInfo) :
  triple headerless (beforeHeaders c info) (fun s _ => headerless s).
Proof.
  apply triple_beforeHeaders; try (intros; assumption); auto.
  apply headerless_download.
Qed.

(** *** The candidates a statement yields *)

Lemma prefix_refl {A : Type} (l : list A) : prefix l l.
Proof. exists []. now rewrite app_nil_r. Qed.

Lemma prefix_nil {A : Type} (l : list A) : prefix [] l.
Proof. now exists l. Qed.

Lemma prefix_app {A : Type} (l p m : list A) :
  prefix p m -> prefix (l ++ p) (l ++ m).
Proof. intros [t ->]. exists t. now rewrite app_assoc. Qed.

Lemma prefix_weaken {A : Type} (p l m : list A) :
  prefix p l -> prefix p (l ++ m).
Proof. intros [t ->]. exists (t ++ m)%list. now rewrite app_assoc. Qed.

Lemma yieldsAt_lift (s : State) (f : State -> State) :
  candidates (f s) = candidates s -> yieldsAt s (lift f) [].
Proof.
  intros H. exists []. simpl. rewrite H, app_nil_r.
  repeat split. apply prefix_refl.
Qed.

Lemma yieldsAt_skip (s : State) : yieldsAt s skip [].
Proof. now apply (yieldsAt_lift s (fun s => s)). Qed.

Lemma yieldsAt_seq (s : State) (a b : stmt) (l1 l2 : list string) :
  yieldsAt s a l1 -> yieldsAt (fst (a s)) b l2 ->
  yieldsAt s (seq a b) (l1 ++ l2).
Proof.
  intros (d1 & E1 & P1 & F1) (d2 & E2 & P2 & F2). unfold yieldsAt, seq.
  destruct (a s) as [s' [err|]]; simpl in *.
  - exists d1.
    repeat split; [exact E1 | now apply prefix_weaken | discriminate].
  - rewrite (F1 eq_refl) in *. exists (l1 ++ d2)%list.
    repeat split.
    + now rewrite E2, E1, app_assoc.
    + now apply prefix_app.
    + intros H. now rewrite (F2 H).
Qed.

Lemma yieldsAt_download (s : State) (c : cli_Context) (url : string) :
  yieldsAt s (download c url) [url].
Proof.
  exists [url]. repeat split; [|apply prefix_refl].
  unfold download. destruct (getURL url) as [u [err|]]; simpl; [reflexivity|].
  now destruct (got_Do _ _ _).
Qed.

Lemma yieldsAt_done (s : State) (url : string) : yieldsAt s (done url) [].
Proof. now apply yieldsAt_lift. Qed.

Lemma yieldsAt_forTokens (c : cli_Context) (tokens : list string) :
  forall s,
    yieldsAt s (forTokens c tokens)
      (filter (fun url => negb (String.eqb url "")) (map TrimSpace tokens)).
Proof.
  induction tokens as [|t rest IH]; intros s; simpl.
  - apply yieldsAt_skip.
  - destruct (String.eqb (TrimSpace t) ""); simpl; [apply IH|].
    apply (yieldsAt_seq s _ _ [_]); [apply yieldsAt_download|].
    apply (yieldsAt_seq _ _ _ []); [apply yieldsAt_done|apply IH].
Qed.

Lemma yieldsAt_multiDownload (s : State) (c : cli_Context) (input : string) :
  yieldsAt s (multiDownload c (bufio.NewScanner input)) (yielded input).
Proof. apply yieldsAt_forTokens. Qed.

End Histories.

Section HeaderLoop.

Context {world_ops : World}.

(** *** The loop over the header flags *)

Lemma withHeaders_HeaderSlice (hs : list string) :
  forall s,
    HeaderSlice (withHeaders hs s)
    = (HeaderSlice s ++ map headerEntry hs)%list.
Proof.
  unfold withHeaders.
  induction hs as [|h rest IH]; intros s; simpl.
  - now rewrite app_nil_r.
  - rewrite IH. simpl. now rewrite <- app_assoc.
Qed.

Lemma withHeaders_submitted (hs : list string) :
  forall s, submitted (withHeaders hs s) = submitted s.
Proof.
  unfold withHeaders. induction hs as [|h rest IH]; intros s; simpl;
    [reflexivity|]. now rewrite IH.
Qed.

Lemma SplitN2_colon (h : string) :
  Contains h ":" = true -> Nat.eqb (List.length (SplitN2 h ":")) 1 = false.
Proof.
  intros H. destruct (Contains_Cut h ":" H) as (k & v & E).
  unfold SplitN2. now rewrite E.
Qed.

Lemma SplitN2_no_colon (h : string) :
  Contains h ":" = false -> Nat.eqb (List.length (SplitN2 h ":")) 1 = true.
Proof. intros H. apply Cut_None in H. unfold SplitN2. now rewrite H. Qed.

Lemma forHeaders_good (hs : list string) :
  forall s,
    Forall (fun h => Contains h ":" = true) hs ->
    forHeaders hs s = (withHeaders hs s, None).
Proof.
  induction hs as [|h rest IH]; intros s H; simpl; [reflexivity|].
  rewrite (SplitN2_colon h (Forall_inv H)).
  unfold seq, lift. now rewrite (IH _ (Forall_inv_tail H)).
Qed.

Lemma forHeaders_bad (good : list string) (bad : string)
    (rest : list string) :
  forall s,
    Forall (fun h => Contains h ":" = true) good ->
    Contains bad ":" = false ->
    forHeaders (good ++ bad :: rest) s
    = (withHeaders good s, Some (errors_New ("malformatted header " ++ bad))).
Proof.
  induction good as [|h more IH]; intros s Hg Hb; simpl.
  - now rewrite (SplitN2_no_colon bad Hb).
  - rewrite (SplitN2_colon h (Forall_inv Hg)).
    unfold seq, lift. now rewrite (IH _ (Forall_inv_tail Hg) Hb).
Qed.

(** The flags split at the first one without a colon. *)
Lemma first_malformed (hs : list string) :
  Forall (fun h => Contains h ":" = true) hs \/
  exists good bad rest,
    hs = (good ++ bad :: rest)%list /\
    Forall (fun h => Contains h ":" = true) good /\
    Contains bad ":" = false.
Proof.
  induction hs as [|h more IH]; [left; constructor|].
  destruct (Contains h ":") eqn:E.
  - destruct IH as [H|(good & bad & rest & -> & Hg & Hb)].
    + left. now constructor.
    + right. exists (h :: good), bad, rest. repeat split; [|exact Hb].
      now constructor.
  - right. exists [], h, more. repeat split; [constructor|exact E].
Qed.

End HeaderLoop.

Section Run.

Context {world_ops : World}.

Lemma seq_assoc (a b d : stmt) (s : State) :
  seq (seq a b) d s = seq a (seq b d) s.
Proof.
  unfold seq. destruct (a s) as [s1 [err|]]; [reflexivity|].
  now destruct (b s1) as [s2 [err|]].
Qed.

Lemma run_body (c : cli_Context) (info : FileInfo) (s : State) :
  Stdin_Stat (world s) = inl info -> run c s = body c info s.
Proof. intros H. unfold run. now rewrite H. Qed.

Lemma body_split (c : cli_Context) (info : FileInfo) (s : State) :
  body c info s = seq (beforeHeaders c info) (fromHeaders c) s.
Proof.
  unfold beforeHeaders, throughStdin, body, afterDir, fromBatch.
  now rewrite !seq_assoc.
Qed.

Lemma main_run_split (c : cli_Context) (w : W) (info : FileInfo) :
  Stdin_Stat w = inl info ->
  main_run c w = seq (beforeHeaders c info) (fromHeaders c) (initial w).
Proof.
  intros H. unfold main_run. rewrite (run_body c info) by exact H.
  apply body_split.
Qed.



(** *** Dispatching a list of URLs *)

Lemma dispatched_more (l more called : list string)
    (new : list (Download * option error)) (err : error) :
  dispatched l called new (Some err) ->
  dispatched (l ++ more) called new (Some err).
Proof.
  intros (before & url & rest & ok & bad & -> & -> & -> & F & B).
  exists before, url, (rest ++ more)%list, ok, bad.
  rewrite <- app_assoc. now repeat split.
Qed.

Lemma dispatched_app (l1 l2 called : list string)
    (n1 n2 : list (Download * option error)) (r : option error) :
  Forall2 succeeded l1 n1 ->
  dispatched l2 called n2 r ->
  dispatched (l1 ++ l2) (l1 ++ called) (n1 ++ n2) r.
Proof.
  intros F1 D. destruct r as [err|]; simpl in *.
  - destruct D as (before & url & rest & ok & bad & -> & -> & -> & F & B).
    exists (l1 ++ before)%list, url, rest, (n1 ++ ok)%list, bad.
    rewrite !app_assoc. repeat split; [|exact B].
    now apply Forall2_app.
  - destruct D as [-> F2]. split; [reflexivity|now apply Forall2_app].
Qed.

Lemma dispatchesAt_lift (s : State) (f : State -> State) :
  candidates (f s) = candidates s -> submitted (f s) = submitted s ->
  dispatchesAt s (lift f) [].
Proof.
  intros Hc Hs. exists [], []. simpl. rewrite Hc, Hs, !app_nil_r.
  repeat split. constructor.
Qed.

Lemma dispatchesAt_skip (s : State) : dispatchesAt s skip [].
Proof. now apply (dispatchesAt_lift s (fun s => s)). Qed.

Lemma dispatchesAt_seq (s : State) (a b : stmt) (l1 l2 : list string) :
  dispatchesAt s a l1 ->
  (snd (a s) = None -> dispatchesAt (fst (a s)) b l2) ->
  dispatchesAt s (seq a b) (l1 ++ l2).
Proof.
  intros (c1 & n1 & Ec1 & En1 & D1) Hb. unfold dispatchesAt, seq.
  destruct (a s) as [s' [err|]]; simpl in *.
  - exists c1, n1. repeat split; [exact Ec1|exact En1|].
    now apply dispatched_more.
  - destruct (Hb eq_refl) as (c2 & n2 & Ec2 & En2 & D2).
    destruct D1 as [-> F1].
    exists (l1 ++ c2)%list, (n1 ++ n2)%list.
    split; [now rewrite Ec2, Ec1, app_assoc|].
    split; [now rewrite En2, En1, app_assoc|].
    now apply dispatched_app.
Qed.

Lemma dispatchesAt_download (s : State) (c : cli_Context) (url : string) :
  dispatchesAt s (download c url) [url].
Proof.
  unfold dispatchesAt, download, getURL.
  destruct (url_Parse url) as [u|err] eqn:E; simpl.
  - destruct (got_Do _ _ _) as [w' [err|]]; simpl;
      do 2 eexists; (split; [reflexivity|]); (split; [reflexivity|]).
    + exists [], url, [], []. eexists.
      repeat split; [constructor|]. right. eexists. split; [|reflexivity].
      unfold getURL. now rewrite E.
    + split; [reflexivity|].
      constructor; [|constructor]. split; [|reflexivity].
      unfold getURL. now rewrite E.
  - exists [url], []. rewrite app_nil_r. repeat split.
    exists [], url, [], [], []. repeat split; [constructor|]. now left.
Qed.

Lemma dispatchesAt_done (s : State) (url : string) :
  dispatchesAt s (done url) [].
Proof. now apply dispatchesAt_lift. Qed.

Lemma dispatchesAt_forArgs (c : cli_Context) (args : list string) :
  forall s, dispatchesAt s (forArgs c args) args.
Proof.
  induction args as [|a rest IH]; intros s; simpl.
  - apply dispatchesAt_skip.
  - apply (dispatchesAt_seq s _ _ [_]); [apply dispatchesAt_download|].
    intros _.
    apply (dispatchesAt_seq _ _ _ []); [apply dispatchesAt_done|].
    intros _. apply IH.
Qed.

Lemma dispatchesAt_forTokens (c : cli_Context) (tokens : list string) :
  forall s,
    dispatchesAt s (forTokens c tokens)
      (filter (fun url => negb (String.eqb url "")) (map TrimSpace tokens)).
Proof.
  induction tokens as [|t rest IH]; intros s; simpl.
  - apply dispatchesAt_skip.
  - destruct (String.eqb (TrimSpace t) ""); simpl; [apply IH|].
    apply (dispatchesAt_seq s _ _ [_]); [apply dispatchesAt_download|].
    intros _.
    apply (dispatchesAt_seq _ _ _ []); [apply dispatchesAt_done|].
    intros _. apply IH.
Qed.

Lemma dispatchesAt_multiDownload (s : State) (c : cli_Context)
    (input : string) :
  Forall spec.fits (spec.lines input) ->
  dispatchesAt s (multiDownload c (bufio.NewScanner input))
    (spec.candidates input).
Proof.
  intros H. rewrite <- (yielded_candidates input H).
  apply dispatchesAt_forTokens.
Qed.






(** C1: fail-fast.  Whatever the flags, the arguments and the world: if
    the engine fails the submission number [k] of a run, then that
    submission is the last one of the run (no URL is dispatched after
    it), and the error that [run] returns is the error the engine
    reported for it, unchanged. *)
Theorem run_fail_fast (c : cli_Context) (w : W) (k : nat) (d : Download)
    (e : error) :
  nth_error (submitted (fst (main_run c w))) k = Some (d, Some e) ->
  S k = List.length (submitted (fst (main_run c w))) /\
  snd (main_run c w) = Some e.
Proof. exact (fail_fast_run c (initial w) (fail_fast_initial w) k d e). Qed.


(** C8, amended: for an input whose lines are each shorter than the
    scanner's buffer (64 KiB), [multiDownload] trims every line, passes
    over the lines that are then empty and dispatches the others in file
    order, one call of [download] per such line.  When it returns no
    error, [download] was called on exactly the trimmed non-empty lines,
    each once and in order, and each was submitted and succeeded; when
    it returns an error, it stopped at one of them, on which [download]
    failed with that error, all earlier ones done and no later one
    touched. *)
Theorem multiDownload_one_candidate_per_line (c : cli_Context)
    (input : string) (s : State) :
  Forall spec.fits (spec.lines input) ->
  exists called new,
    candidates (fst (multiDownload c (bufio.NewScanner input) s))
      = (candidates s ++ called)%list /\
    submitted (fst (multiDownload c (bufio.NewScanner input) s))
      = (submitted s ++ new)%list /\
    dispatched (spec.candidates input) called new
               (snd (multiDownload c (bufio.NewScanner input) s)).
Proof. intros H. now apply dispatchesAt_multiDownload. Qed.

(** C10: positional arguments go to [download] exactly as given.  The
    loop over the arguments dispatches the arguments themselves,
    untrimmed and unfiltered, the empty string included: when it returns
    no error, [download] was called on every argument, once and in
    order, and each was submitted in its normal form and succeeded; when
    it returns an error, it stopped at one argument, on which [download]
    failed with that error, all earlier ones done and no later one
    touched.  In particular the first argument, whatever it is, is
    handed to [download] as it is, and when it parses (as the empty
    string does) its normal form is the first request that the loop
    hands to the engine.  Whereas a line that is blank after trimming is
    passed over by [multiDownload]. *)
Theorem positional_arguments_as_given (c : cli_Context) (s : State) :
  (exists called new,
     candidates (fst (fromArgs c s)) = (candidates s ++ called)%list /\
     submitted (fst (fromArgs c s)) = (submitted s ++ new)%list /\
     dispatched (Args c) called new (snd (fromArgs c s))) /\
  (forall arg rest u,
     Args c = arg :: rest ->
     url_Parse arg = inl u ->
     exists called d r more,
       candidates (fst (fromArgs c s))
         = (candidates s ++ arg :: called)%list /\
       submitted (fst (fromArgs c s))
         = (submitted s ++ (d, r) :: more)%list /\
       getURL arg = (URL_ d, None)) /\
  (forall text, TrimSpace text = "" -> forTokens c [text] s = (s, None)).
Proof.
  split; [apply dispatchesAt_forArgs|]. split.
  - intros arg rest u Ha Hu. unfold fromArgs. rewrite Ha.
    assert (exists n, getURL arg = (n, None)) as [n Hn]
      by (unfold getURL; rewrite Hu; eauto).
    cbn [forArgs]. unfold seq, download, done, lift. rewrite Hn.
    destruct (got_Do _ _ _) as [w' [err|]]; cbn [fst snd].
    + exists [], (request c n (note_candidate arg s)), (Some err), [].
      now repeat split.
    + match goal with
      | |- context [forArgs c rest ?s1] =>
        destruct (dispatchesAt_forArgs c rest s1)
          as (called & new & Ec & En & _)
      end.
      exists called, (request c n (note_candidate arg s)), None, new.
      rewrite Ec, En. simpl. rewrite <- !app_assoc. now repeat split.
  - intros text H. simpl. now rewrite H.
Qed.

(** C2, as the code has it: every request submitted before the header
    flags are read, that is every request for a URL from standard input
    or from the batch file, carries the empty header list, whatever the
    header flags are; the flags are read only afterwards, for the
    positional arguments. *)
Theorem headers_read_after_piped_and_batch_urls (c : cli_Context) (w : W)
    (info : FileInfo) :
  Forall (fun entry => Header (fst entry) = [])
         (submitted (fst (beforeHeaders c info (initial w)))) /\
  (Stdin_Stat w = inl info ->
   main_run c w = seq (beforeHeaders c info) (fromHeaders c) (initial w)).
Proof.
  split.
  - apply (headerless_beforeHeaders c info (initial w)). split; [reflexivity|].
    constructor.
  - intros H. unfold main_run. rewrite (run_body c info) by exact H.
    apply body_split.
Qed.

(** C7, as the code has it: when the directory does not exist and
    creating it fails, the error is dropped and the run goes on with the
    statements that follow, in the world the failed call left. *)
Theorem mkdir_failure_ignored (c : cli_Context) (w w' : W) (info : FileInfo)
    (err : error) :
  Stdin_Stat w = inl info ->
  flag_dir c <> "" ->
  os_IsNotExist (os_Stat w (flag_dir c)) = true ->
  os_MkdirAll w (flag_dir c) = (w', Some err) ->
  main_run c w = afterDir c info (set_world w' (initial w)).
Proof.
  intros Hs Hd Hn Hm. unfold main_run. rewrite (run_body c info) by exact Hs.
  unfold body, seq, createDir, lift.
  apply String.eqb_neq in Hd. rewrite Hd. simpl. rewrite Hn, Hm. reflexivity.
Qed.

(** C4, amended: a header flag with a colon adds exactly one entry, whose
    key is the text before the first colon and whose value is the text
    after it with leading and trailing white space removed; a flag with
    no colon makes the loop return the error "malformatted header "
    followed by the flag. *)
Theorem header_flag_entry (h : string) (s : State) :
  (Contains h ":" = true ->
   exists k v,
     h = k ++ String ":" v /\ Contains k ":" = false /\
     forHeaders [h] s
       = (append_HeaderSlice {| Key := k; Value := TrimSpace v |} s, None)) /\
  (Contains h ":" = false ->
   forHeaders [h] s = (s, Some (errors_New ("malformatted header " ++ h)))).
Proof.
  split; intros H.
  - destruct (Contains_Cut h ":" H) as (k & v & E).
    destruct (Cut_Some h ":" k v E) as [-> Hk].
    exists k, v. repeat split; [exact Hk|].
    simpl. unfold SplitN2. rewrite E. reflexivity.
  - apply Cut_None in H. simpl. unfold SplitN2. rewrite H. reflexivity.
Qed.

(** C5: [getURL].  A candidate that parses with an empty scheme is
    printed with the scheme https and everything else as parsed; one that
    parses with a scheme is printed as parsed; the result is the printed
    form of that URL; a candidate that does not parse gives the parser's
    error (and the empty string). *)
Theorem getURL_scheme (raw : string) :
  (forall u, url_Parse raw = inl u -> Scheme u = "" ->
     getURL raw = (url_String (set_Scheme u "https"), None) /\
     Scheme (set_Scheme u "https") = "https") /\
  (forall u, url_Parse raw = inl u -> Scheme u <> "" ->
     getURL raw = (url_String u, None)) /\
  (forall err, url_Parse raw = inr err -> getURL raw = ("", Some err)).
Proof.
  unfold getURL. split; [|split].
  - intros u H He. rewrite H, He. split; reflexivity.
  - intros u H Hn. rewrite H. apply String.eqb_neq in Hn. now rewrite Hn.
  - intros err H. now rewrite H.
Qed.

End Run.

(* ================================================================== *)
(** ** The progress callback *)

(** Below the upper bound, one call of the callback moves the position
    by the bytes transferred so far, not by those transferred since the
    call before. *)
Lemma ProgressFunc_advance (p : bridge.ProgressBar) (d : bridge.Snapshot) :
  bridge.int (bridge.TotalSize d) <> 0%Z ->
  (bridge.currentNum p < bridge.int (bridge.TotalSize d))%Z ->
  bridge.ProgressFunc p d =
  {| bridge.max := bridge.int (bridge.TotalSize d);
     bridge.currentNum :=
       bridge.add64 (bridge.currentNum p) (bridge.int (bridge.Size d)) |}.
Proof.
  intros Hm Hlt. unfold bridge.ProgressFunc, bridge.Add, bridge.ChangeMax.
  simpl. apply Z.eqb_neq in Hm. apply Z.ltb_lt in Hlt. now rewrite Hm, Hlt.
Qed.

(** C6, as the code has it: for a download of 100 bytes whose callback
    fires after 10 and after 20 bytes, the upper bound is 100 but the
    position is 30, the sum of the two reports, where the specification
    has 20. *)
Theorem progress_position_sums_reports :
  let calls := [ {| bridge.TotalSize := 100; bridge.Size := 10 |};
                 {| bridge.TotalSize := 100; bridge.Size := 20 |} ] in
  bridge.max (bridge.after calls) = 100%Z /\
  bridge.currentNum (bridge.after calls) = 30%Z /\
  spec.position calls = 20%Z.
Proof. repeat split. Qed.

(* ================================================================== *)
(** ** The interrupt listener *)

Module listener_facts.

Import listener.

Lemma inv_start : invariant start.
Proof. now repeat split. Qed.

Lemma inv_exec (s : state) (e : event) : invariant s -> invariant (exec s e).
Proof.
  destruct s as [ch rel l cx lg n]. unfold invariant. simpl.
  destruct e as [sig| |]; simpl.
  - unfold deliver; simpl.
    destruct l; simpl; try tauto;
      intros (-> & H); simpl; try tauto; destruct ch; simpl; tauto.
  - unfold advance, cancel; simpl.
    destruct l; simpl; try tauto.
    + destruct ch; simpl; auto.
    + intros (-> & -> & -> & ->). simpl. auto.
    + intros (-> & -> & -> & ->). simpl. auto.
  - unfold enterFatal; simpl.
    destruct l; simpl; try tauto.
    intros (-> & -> & -> & ->). simpl. auto.
Qed.

Lemma inv_fold (schedule : list event) :
  forall s, invariant s -> invariant (fold_left exec schedule s).
Proof.
  induction schedule as [|e rest IH]; intros s H; simpl; [exact H|].
  apply IH. now apply inv_exec.
Qed.

Lemma inv_after (schedule : list event) : invariant (after schedule).
Proof. apply inv_fold, inv_start. Qed.

Lemma after_app (schedule more : list event) :
  after (schedule ++ more) = fold_left exec more (after schedule).
Proof. unfold after. apply fold_left_app. Qed.

(** Once cancelled, always cancelled. *)
Lemma cancelled_exec (s : state) (e : event) :
  ctx s = Cancelled -> ctx (exec s e) = Cancelled.
Proof.
  destruct s as [ch rel l cx lg n]. simpl. intros ->.
  destruct e as [sig| |]; simpl.
  - unfold deliver; simpl. destruct l, rel, ch; reflexivity.
  - unfold advance, cancel; simpl. destruct l; try reflexivity.
    destruct ch; reflexivity.
  - unfold enterFatal; simpl. destruct l; reflexivity.
Qed.

Lemma cancelled_fold (more : list event) :
  forall s, ctx s = Cancelled -> ctx (fold_left exec more s) = Cancelled.
Proof.
  induction more as [|e rest IH]; intros s H; simpl; [exact H|].
  apply IH. now apply cancelled_exec.
Qed.

Lemma cancel_idempotent (s : state) : cancel (cancel s) = cancel s.
Proof. unfold cancel. destruct (ctx s) eqn:E; simpl; now rewrite ?E. Qed.

(** While the goroutine waits, a signal that finds the channel full is
    dropped. *)
Lemma deliver_full (sig first : Signal) (s : state) :
  pc s = AtReceive -> relaying s = true -> interruptChan s = Some first ->
  deliver sig s = s.
Proof. unfold deliver. now intros -> -> ->. Qed.

Lemma deliver_all_full (sigs : list Signal) (first : Signal) (s : state) :
  pc s = AtReceive -> relaying s = true -> interruptChan s = Some first ->
  fold_left exec (map Deliver sigs) s = s.
Proof.
  intros H1 H2 H3. induction sigs as [|sig rest IH]; simpl; [reflexivity|].
  now rewrite (deliver_full sig first s H1 H2 H3).
Qed.

(** However many signals arrive before the goroutine is scheduled, its
    four statements then take it to the call of [log.Fatal] and
    through it. *)
Lemma listener_exits (sig : Signal) (sigs : list Signal) :
  pc (after (map Deliver (sig :: sigs) ++ repeat Advance 4)) = Exited.
Proof.
  rewrite after_app. unfold after. simpl map. simpl fold_left at 2.
  change (exec start (Deliver sig)) with (deliver sig start).
  rewrite (deliver_all_full sigs sig); reflexivity.
Qed.

(** C9, amended: cancellation happens at most once.  Whatever signals
    arrive and however their arrival is interleaved with the statements
    of the listener: the context changes from active to cancelled at
    most once and at most one error is logged; when the listener has run
    to its end, exactly one change has happened and exactly one error,
    the abort error, has been logged; a cancelled context stays
    cancelled, with the same count, whatever follows; and a second call
    of [cancel] changes nothing. *)
Theorem cancelled_at_most_once (schedule : list event) :
  (transitions (after schedule) <= 1 /\
   List.length (logged (after schedule)) <= 1) /\
  (pc (after schedule) = Exited ->
   transitions (after schedule) = 1 /\
   logged (after schedule) = [ErrDownloadAborted] /\
   ctx (after schedule) = Cancelled) /\
  (ctx (after schedule) = Cancelled ->
   forall more,
     ctx (after (schedule ++ more)) = Cancelled /\
     transitions (after (schedule ++ more)) = 1) /\
  cancel (cancel (after schedule)) = cancel (after schedule).
Proof.
  pose proof (inv_after schedule) as H. unfold invariant in H.
  split; [|split; [|split]].
  - destruct (pc (after schedule));
      destruct H as (_ & _ & -> & H); try destruct H as [H|H];
      rewrite H; simpl; lia.
  - destruct (pc (after schedule)); try discriminate. tauto.
  - intros Hc more.
    assert (ctx (after (schedule ++ more)) = Cancelled) as E
      by (rewrite after_app; now apply cancelled_fold).
    split; [exact E|].
    pose proof (inv_after (schedule ++ more)) as H'. unfold invariant in H'.
    destruct (pc (after (schedule ++ more)));
      destruct H' as (_ & E' & ? & _); congruence.
  - apply cancel_idempotent.
Qed.

(** Three signals, the listener scheduled between them. *)
Lemma cancelled_at_most_once_witness :
  let schedule := [Deliver SIGINT; Deliver SIGINT; Advance; Deliver SIGTERM;
                   Advance; Advance; Advance; Deliver SIGINT] in
  pc (after schedule) = Exited /\
  transitions (after schedule) = 1 /\
  logged (after schedule) = [ErrDownloadAborted] /\
  ctx (after schedule) = Cancelled.
Proof.
  intros schedule. split; [reflexivity|].
  exact (proj1 (proj2 (cancelled_at_most_once schedule)) eq_refl).
Defined.

(** C9 as stated fails.  In a run without any signal the context is never
    cancelled and nothing is logged.  In a run with two signals, the
    second of which arrives after [signal.Stop] and before [log.Fatal],
    the context is cancelled once but the process is gone before the
    abort error is logged. *)
Lemma second_signal_before_the_log :
  (delivered [] = 0 /\
   transitions (after []) = 0 /\ logged (after []) = []) /\
  (let schedule := [Deliver SIGINT; Advance; Advance; Advance;
                    Deliver SIGINT] in
   delivered schedule = 2 /\
   pc (after schedule) = Killed /\
   transitions (after schedule) = 1 /\
   logged (after schedule) = [] /\
   forall more, logged (after (schedule ++ more)) = []).
Proof.
  split; [repeat split|]. intros schedule. repeat split.
  intros more. rewrite after_app.
  assert (forall s, pc s = Killed -> fold_left exec more s = s) as Hk.
  { induction more as [|e rest IH]; intros s Hs; [reflexivity|].
    simpl. replace (exec s e) with s; [now apply IH|].
    destruct e; simpl; unfold deliver, advance, enterFatal; now rewrite Hs. }
  now rewrite Hk.
Qed.

End listener_facts.

(* ================================================================== *)
(** ** Examples in the small world *)

Module examples.

Import demo.

(** The scanner and the trimming at work. *)
Example tokens_of_lines :
  bufio.Tokens (text ["a"; ""; "b"]) = ["a"; ""; "b"] /\
  bufio.Tokens (String "a" (String bufio.CR (String bufio.LF "b")))
  = ["a"; "b"].
Proof. split; reflexivity. Qed.

Example trimmed_on_both_sides :
  TrimSpace (String "009" (String "194" (String "160" "a b  "))) = "a b" /\
  TrimLeft " v " = "v ".
Proof. split; reflexivity. Qed.

(** Three arguments, the second of which the engine cannot fetch: two
    submissions, and the run returns the engine's error for the second. *)
Lemma run_fail_fast_witness :
  let c := withArgs ["a"; "b"; "c"] noFlags in
  let w := withUnreachable "https://b" quiet in
  2 = List.length (submitted (fst (main_run c w))) /\
  snd (main_run c w) = Some (got_Error "cannot fetch https://b").
Proof.
  intros c w.
  apply (run_fail_fast c w 1 (request c "https://b" (initial w))).
  reflexivity.
Defined.



(** The input a, LF, LF, b, LF: [download] is called on a and b, and
    both are submitted and succeed. *)
Lemma multiDownload_one_candidate_per_line_witness :
  let input := String "a" (String bufio.LF (String bufio.LF
                 (String "b" (String bufio.LF "")))) in
  let m := multiDownload noFlags (bufio.NewScanner input) (initial quiet) in
  snd m = None /\
  candidates (fst m) = ["a"; "b"] /\
  Forall2 succeeded ["a"; "b"] (submitted (fst m)).
Proof.
  intros input m. split; [reflexivity|].
  destruct (multiDownload_one_candidate_per_line noFlags input
              (initial quiet) ltac:(repeat constructor))
    as (called & new & Ec & En & D).
  change (snd (multiDownload noFlags (bufio.NewScanner input)
                 (initial quiet))) with (@None error) in D.
  destruct D as [-> F]. subst m. rewrite Ec, En. split; [reflexivity|exact F].
Defined.

(** C8 as stated fails: the input has two non-empty lines, yet
    [multiDownload] calls [download] on neither and returns no error. *)
Lemma long_line_ends_the_scan :
  List.length (spec.candidates longInput) = 2 /\
  candidates (fst (multiDownload noFlags (bufio.NewScanner longInput)
                     (initial quiet))) = [] /\
  snd (multiDownload noFlags (bufio.NewScanner longInput) (initial quiet))
    = None.
Proof. vm_compute. repeat split. Qed.

(** The arguments: the empty string, then a.  [download] is called on
    both, and both are submitted and succeed. *)
Lemma positional_arguments_as_given_witness :
  let c := withArgs [""; "a"] noFlags in
  snd (fromArgs c (initial quiet)) = None /\
  candidates (fst (fromArgs c (initial quiet))) = [""; "a"] /\
  Forall2 succeeded [""; "a"] (submitted (fst (fromArgs c (initial quiet)))).
Proof.
  intros c. split; [reflexivity|].
  destruct (proj1 (positional_arguments_as_given c (initial quiet)))
    as (called & new & Ec & En & D).
  change (snd (fromArgs c (initial quiet))) with (@None error) in D.
  destruct D as [-> F]. rewrite Ec, En. split; [reflexivity|exact F].
Defined.

(** The empty argument is submitted, as the URL "https:"; an argument
    with a tab in front goes to the parser as it is, which refuses it,
    whereas the same text as a line of standard input is trimmed
    first. *)
Example empty_argument_dispatched :
  submitted (fst (main_run (withArgs [""] noFlags) quiet))
  = [(request noFlags "https:" (initial quiet), None)].
Proof. reflexivity. Qed.

Example argument_not_trimmed :
  let tab_a := String "009" "a" in
  (candidates (fst (main_run (withArgs [tab_a] noFlags) quiet)) = [tab_a] /\
   submitted (fst (main_run (withArgs [tab_a] noFlags) quiet)) = [] /\
   snd (main_run (withArgs [tab_a] noFlags) quiet)
   = Some (url_Error "parse" tab_a
             "net/url: invalid control character in URL")) /\
  (candidates (fst (main_run noFlags (withStdin (text [tab_a]) quiet)))
   = ["a"] /\
   snd (main_run noFlags (withStdin (text [tab_a]) quiet)) = None).
Proof. repeat split. Qed.

(** One header flag and one URL on standard input: the request for it is
    submitted without the header, which is read afterwards. *)
Lemma headers_read_after_piped_and_batch_urls_witness :
  let c := withHeader ["A: b"] noFlags in
  let w := withStdin (text ["a"]) quiet in
  main_run c w
  = seq (beforeHeaders c {| Mode := ModeNamedPipe; Size := 2 |})
        (fromHeaders c) (initial w).
Proof.
  intros c w.
  exact (proj2 (headers_read_after_piped_and_batch_urls c w
                  {| Mode := ModeNamedPipe; Size := 2 |}) eq_refl).
Defined.

Example header_not_sent_with_piped_url :
  let c := withHeader ["A: b"] noFlags in
  let s := fst (main_run c (withStdin (text ["a"]) quiet)) in
  map (fun entry => (URL_ (fst entry), Header (fst entry))) (submitted s)
    = [("https://a", [])] /\
  HeaderSlice s = [{| Key := "A"; Value := "b" |}].
Proof. split; reflexivity. Qed.

(** A malformed header flag is reported only after the URLs of standard
    input have been downloaded. *)
Example malformed_header_after_downloads :
  let c := withHeader ["BadHeader"] noFlags in
  let r := main_run c (withStdin (text ["a"]) quiet) in
  fetched (world (fst r)) = ["https://a"] /\
  snd r = Some (errors_New "malformatted header BadHeader").
Proof. split; reflexivity. Qed.

(** The directory cannot be created: the run goes on all the same. *)
Lemma mkdir_failure_ignored_witness :
  let c := withDir "out" (withArgs ["a"] noFlags) in
  let w := withReadOnly quiet in
  main_run c w
  = afterDir c {| Mode := 0; Size := 0 |} (set_world w (initial w)).
Proof.
  intros c w.
  apply (mkdir_failure_ignored c w w {| Mode := 0; Size := 0 |}
           (PathError "mkdir" "out" EACCES));
    [reflexivity | discriminate | reflexivity | reflexivity].
Defined.

Example download_after_failed_mkdir :
  let c := withDir "out" (withArgs ["a"] noFlags) in
  let r := main_run c (withReadOnly quiet) in
  os_MkdirAll (withReadOnly quiet) "out"
    = (withReadOnly quiet, Some (PathError "mkdir" "out" EACCES)) /\
  map (fun entry => URL_ (fst entry)) (submitted (fst r)) = ["https://a"] /\
  snd r = None.
Proof. repeat split. Qed.

(** C4 as stated fails: for the flag "K: v " the specification's entry
    keeps the space after v, the entry that [run] appends does not. *)
Lemma header_value_trimmed_on_both_sides :
  spec.header_entry "K: v " = Some {| Key := "K"; Value := "v " |} /\
  HeaderSlice (fst (forHeaders ["K: v "] (initial quiet)))
    = [{| Key := "K"; Value := "v" |}].
Proof. split; reflexivity. Qed.

Lemma header_flag_entry_witness :
  (exists k v,
     "Authorization: Bearer abc" = k ++ String ":" v /\
     Contains k ":" = false /\
     forHeaders ["Authorization: Bearer abc"] (initial quiet)
       = (append_HeaderSlice {| Key := k; Value := TrimSpace v |}
            (initial quiet), None)) /\
  forHeaders ["BadHeader"] (initial quiet)
    = (initial quiet, Some (errors_New "malformatted header BadHeader")).
Proof.
  split.
  - exact (proj1 (header_flag_entry "Authorization: Bearer abc"
                    (initial quiet)) eq_refl).
  - exact (proj2 (header_flag_entry "BadHeader" (initial quiet)) eq_refl).
Defined.

Example header_flag_examples :
  HeaderSlice (fst (forHeaders ["Authorization: Bearer abc"; "A:b:c"]
                      (initial quiet)))
  = [{| Key := "Authorization"; Value := "Bearer abc" |};
     {| Key := "A"; Value := "b:c" |}].
Proof. reflexivity. Qed.

Lemma getURL_scheme_witness :
  getURL "example.com/file.zip" = ("https://example.com/file.zip", None) /\
  getURL "http://x.com/a" = ("http://x.com/a", None) /\
  getURL ":x"
    = ("", Some (url_Error "parse" ":x" "missing protocol scheme")).
Proof.
  destruct (getURL_scheme "example.com/file.zip") as (H1 & _ & _).
  destruct (getURL_scheme "http://x.com/a") as (_ & H2 & _).
  destruct (getURL_scheme ":x") as (_ & _ & H3).
  split; [|split].
  - exact (proj1 (H1 _ eq_refl eq_refl)).
  - apply (H2 _ eq_refl). discriminate.
  - exact (H3 _ eq_refl).
Defined.

End examples.

(* ================================================================== *)
(** ** More facts about [strings] *)

Functional Scheme trimRev_ind := Induction for trimRev Sort Prop.

Lemma startsSpace_TrimLeftSpace (s : list ascii) :
  startsSpace (TrimLeftSpace s) = false.
Proof.
  functional induction (TrimLeftSpace s); try assumption;
    unfold startsSpace.
  - reflexivity.
  - now rewrite e0.
  - now rewrite e0, e2.
  - now rewrite e0, e2, e4.
Qed.

Lemma TrimLeftSpace_fixed (s : list ascii) :
  startsSpace s = false -> TrimLeftSpace s = s.
Proof.
  destruct s as [|c1 [|c2 [|c3 r3]]]; unfold startsSpace; intros H.
  - reflexivity.
  - rewrite orb_false_r in H. cbn [TrimLeftSpace]. now rewrite H.
  - apply orb_false_elim in H. destruct H as [H1 H2].
    rewrite orb_false_r in H2. cbn [TrimLeftSpace]. now rewrite H1, H2.
  - apply orb_false_elim in H. destruct H as [H1 H].
    apply orb_false_elim in H. destruct H as [H2 H3].
    cbn [TrimLeftSpace]. now rewrite H1, H2, H3.
Qed.

Lemma endsSpace_trimRev (s : list ascii) : endsSpace (trimRev s) = false.
Proof.
  functional induction (trimRev s) using trimRev_ind; try assumption;
    unfold endsSpace.
  - reflexivity.
  - now rewrite e0.
  - now rewrite e0, e2.
  - now rewrite e0, e2, e4.
Qed.

Lemma trimRev_fixed (s : list ascii) : endsSpace s = false -> trimRev s = s.
Proof.
  destruct s as [|c1 [|c2 [|c3 r3]]]; unfold endsSpace; intros H.
  - reflexivity.
  - rewrite orb_false_r in H. cbn [trimRev]. now rewrite H.
  - apply orb_false_elim in H. destruct H as [H1 H2].
    rewrite orb_false_r in H2. cbn [trimRev]. now rewrite H1, H2.
  - apply orb_false_elim in H. destruct H as [H1 H].
    apply orb_false_elim in H. destruct H as [H2 H3].
    cbn [trimRev]. now rewrite H1, H2, H3.
Qed.

(** Trimming keeps a contiguous part of the bytes. *)
Lemma TrimLeftSpace_suffix (s : list ascii) :
  exists p, s = (p ++ TrimLeftSpace s)%list.
Proof.
  functional induction (TrimLeftSpace s);
    try (now exists []);
    destruct IHl as [p Hp].
  - exists (c1 :: p). simpl. now rewrite <- Hp.
  - exists (c1 :: c2 :: p). simpl. now rewrite <- Hp.
  - exists (c1 :: c2 :: c3 :: p). simpl. now rewrite <- Hp.
Qed.

Lemma trimRev_suffix (s : list ascii) : exists p, s = (p ++ trimRev s)%list.
Proof.
  functional induction (trimRev s) using trimRev_ind;
    try (now exists []);
    destruct IHl as [p Hp].
  - exists (c1 :: p). simpl. now rewrite <- Hp.
  - exists (c1 :: c2 :: p). simpl. now rewrite <- Hp.
  - exists (c1 :: c2 :: c3 :: p). simpl. now rewrite <- Hp.
Qed.

Lemma TrimRightSpace_prefix (s : list ascii) :
  exists t, s = (TrimRightSpace s ++ t)%list.
Proof.
  unfold TrimRightSpace, rev'. rewrite <- !rev_alt.
  destruct (trimRev_suffix (rev s)) as [p Hp]. exists (rev p).
  rewrite <- rev_app_distr, <- Hp. now rewrite rev_involutive.
Qed.

Lemma startsSpace_app (q t : list ascii) :
  startsSpace q = true -> startsSpace (q ++ t) = true.
Proof.
  destruct q as [|c1 [|c2 [|c3 r3]]]; unfold startsSpace;
    cbn [app]; try discriminate.
  - rewrite orb_false_r. now intros ->.
  - destruct (asciiSpace c1); [reflexivity|]. cbn [orb].
    rewrite orb_false_r. now intros ->.
  - now intros ->.
Qed.

Lemma TrimRightSpace_idempotent (s : list ascii) :
  TrimRightSpace (TrimRightSpace s) = TrimRightSpace s.
Proof.
  unfold TrimRightSpace, rev'. rewrite <- !rev_alt, rev_involutive.
  now rewrite (trimRev_fixed _ (endsSpace_trimRev _)).
Qed.

Lemma TrimLeftSpace_TrimRightSpace (y : list ascii) :
  startsSpace y = false -> TrimLeftSpace (TrimRightSpace y) = TrimRightSpace y.
Proof.
  intros H. apply TrimLeftSpace_fixed.
  destruct (TrimRightSpace_prefix y) as [t Ht].
  destruct (startsSpace (TrimRightSpace y)) eqn:E; [|reflexivity].
  apply (startsSpace_app _ t) in E. rewrite <- Ht in E. congruence.
Qed.

(** [TrimSpace] leaves a trimmed text as it is. *)
Lemma TrimSpace_idempotent (s : string) : TrimSpace (TrimSpace s) = TrimSpace s.
Proof.
  unfold TrimSpace. rewrite list_ascii_of_string_of_list_ascii.
  rewrite TrimLeftSpace_TrimRightSpace by apply startsSpace_TrimLeftSpace.
  now rewrite TrimRightSpace_idempotent.
Qed.

(** [Contains], on the bytes. *)
Lemma Contains_Forall (s : string) (sep : ascii) :
  Contains s sep = false <->
  Forall (fun c => Ascii.eqb c sep = false) (list_ascii_of_string s).
Proof.
  induction s as [|c r IH]; simpl.
  - split; [constructor|reflexivity].
  - split.
    + intros H. apply orb_false_elim in H. destruct H as [Hc Hr].
      constructor; [exact Hc|now apply IH].
    + intros H. inversion H; subst. apply orb_false_intro; [assumption|].
      now apply IH.
Qed.

Lemma TrimSpace_part (s : string) :
  exists p t,
    list_ascii_of_string s
    = (p ++ list_ascii_of_string (TrimSpace s) ++ t)%list.
Proof.
  unfold TrimSpace. rewrite list_ascii_of_string_of_list_ascii.
  destruct (TrimLeftSpace_suffix (list_ascii_of_string s)) as [p Hp].
  destruct (TrimRightSpace_prefix (TrimLeftSpace (list_ascii_of_string s)))
    as [t Ht].
  exists p, t. now rewrite <- Ht.
Qed.

Lemma length_list_ascii_of_string (s : string) :
  List.length (list_ascii_of_string s) = String.length s.
Proof. induction s; simpl; congruence. Qed.

Lemma TrimSpace_length (s : string) :
  String.length (TrimSpace s) <= String.length s.
Proof.
  destruct (TrimSpace_part s) as (p & t & H).
  apply (f_equal (@List.length ascii)) in H.
  rewrite !length_app, !length_list_ascii_of_string in H. lia.
Qed.

Lemma TrimSpace_Contains (s : string) (sep : ascii) :
  Contains s sep = false -> Contains (TrimSpace s) sep = false.
Proof.
  rewrite !Contains_Forall. destruct (TrimSpace_part s) as (p & t & ->).
  intros H. apply Forall_app in H. destruct H as [_ H].
  apply Forall_app in H. now destruct H.
Qed.

(* ================================================================== *)
(** ** More facts about [bufio] *)

Lemma Contains_string_of_list_ascii (l : list ascii) (sep : ascii) :
  Forall (fun c => Ascii.eqb c sep = false) l ->
  Contains (string_of_list_ascii l) sep = false.
Proof.
  intros H. apply Contains_Forall.
  now rewrite list_ascii_of_string_of_list_ascii.
Qed.

Lemma dropCR_part (rline : list ascii) :
  exists p, rline = (p ++ bufio.dropCR rline)%list.
Proof.
  destruct rline as [|c r]; [now exists []|]. simpl.
  destruct (Ascii.eqb c bufio.CR); [now exists [c]|now exists []].
Qed.

(** A token holds no line feed and fits the buffer. *)
Lemma token_tidy (rline : list ascii) :
  Forall (fun c => Ascii.eqb c bufio.LF = false) rline ->
  (N.of_nat (List.length rline) < bufio.MaxScanTokenSize)%N ->
  Contains (bufio.token rline) bufio.LF = false /\
  (N.of_nat (String.length (bufio.token rline)) < bufio.MaxScanTokenSize)%N.
Proof.
  intros Hc Hn. unfold bufio.token, rev'. rewrite <- rev_alt.
  destruct (dropCR_part rline) as [p Hp]. rewrite Hp in Hc, Hn.
  apply Forall_app in Hc. destruct Hc as [_ Hc]. split.
  - apply Contains_string_of_list_ascii. now apply Forall_rev.
  - rewrite length_string_of_list_ascii, length_rev.
    rewrite length_app in Hn. lia.
Qed.

Lemma scan_tidy (input : string) :
  forall rline,
    Forall (fun c => Ascii.eqb c bufio.LF = false) rline ->
    Forall (fun t => Contains t bufio.LF = false /\
                     (N.of_nat (String.length t) < bufio.MaxScanTokenSize)%N)
           (bufio.scan rline (N.of_nat (List.length rline)) input).
Proof.
  induction input as [|c rest IH]; intros rline H; cbn [bufio.scan].
  - destruct (N.of_nat (List.length rline) =? 0)%N; [constructor|].
    destruct (N.of_nat (List.length rline) <? bufio.MaxScanTokenSize)%N eqn:E;
      [|constructor].
    apply N.ltb_lt in E. constructor; [now apply token_tidy|constructor].
  - destruct (Ascii.eqb c bufio.LF) eqn:Ec.
    + destruct (N.of_nat (List.length rline) <? bufio.MaxScanTokenSize)%N eqn:E;
        [|constructor].
      apply N.ltb_lt in E. constructor; [now apply token_tidy|].
      apply (IH []). constructor.
    + replace (N.of_nat (List.length rline) + 1)%N
        with (N.of_nat (List.length (c :: rline))) by (simpl; lia).
      apply IH. now constructor.
Qed.

Section Loops.

Context {world_ops : World}.

Lemma seq_skip_l (a : stmt) (s : State) : seq skip a s = a s.
Proof. reflexivity. Qed.

Lemma seq_skip_r (a : stmt) (s : State) : seq a skip s = a s.
Proof. unfold seq, skip. now destruct (a s) as [s' [err|]]. Qed.

Lemma seq_ext (a b b' : stmt) (s : State) :
  (forall s', b s' = b' s') -> seq a b s = seq a b' s.
Proof. intros H. unfold seq. destruct (a s) as [s' [err|]]; auto. Qed.

Lemma forTokens_forArgs (c : cli_Context) (tokens : list string) :
  forall s,
    forTokens c tokens s
    = forArgs c (filter (fun url => negb (String.eqb url ""))
                        (map TrimSpace tokens)) s.
Proof.
  induction tokens as [|t rest IH]; intros s; simpl; [reflexivity|].
  destruct (String.eqb (TrimSpace t) ""); simpl; [apply IH|].
  apply seq_ext. intros s1. apply seq_ext. exact IH.
Qed.

(** X1: reading lines is the argument loop on the candidates.  For every
    input and state, [multiDownload] does exactly what the loop over the
    positional arguments does when it is given the trimmed, non-empty
    tokens of the scanner: same final state (world, output, histories)
    and same result. *)
Theorem multiDownload_as_argument_loop (c : cli_Context) (input : string)
    (s : State) :
  multiDownload c (bufio.NewScanner input) s = forArgs c (yielded input) s.
Proof. apply forTokens_forArgs. Qed.

(** X2: the argument loop composes.  Downloading the arguments [a ++ b]
    is downloading [a] and then, unless that returned an error,
    downloading [b] from the state it left. *)
Theorem forArgs_app (c : cli_Context) (a b : list string) (s : State) :
  forArgs c (a ++ b) s = seq (forArgs c a) (forArgs c b) s.
Proof.
  revert s. induction a as [|u a IH]; intros s; simpl; [reflexivity|].
  rewrite seq_assoc. apply seq_ext. intros s1.
  rewrite seq_assoc. apply seq_ext. exact IH.
Qed.

End Loops.

Section MoreHistories.

Context {world_ops : World}.

Lemma prefix_Forall {A : Type} (P : A -> Prop) (p l : list A) :
  prefix p l -> Forall P l -> Forall P p.
Proof. intros [t ->] H. apply Forall_app in H. tauto. Qed.

Lemma yielded_tidy (input : string) : Forall tidyCandidate (yielded input).
Proof.
  unfold yielded, bufio.Tokens, bufio.NewScanner.
  pose proof (scan_tidy input [] (Forall_nil _)) as H. simpl in H.
  apply Forall_forall. intros url Hin.
  apply filter_In in Hin. destruct Hin as [Hin Hne].
  apply in_map_iff in Hin. destruct Hin as (t & <- & Ht).
  rewrite Forall_forall in H. destruct (H t Ht) as [Hc Hn].
  repeat split.
  - apply negb_true_iff, String.eqb_neq in Hne. exact Hne.
  - apply TrimSpace_idempotent.
  - now apply TrimSpace_Contains.
  - pose proof (TrimSpace_length t). lia.
Qed.

(** X3: what a line source hands to [download].  Every URL on which
    [multiDownload] calls [download] is non-empty, has no white space
    around it, holds no line feed and is shorter than 64 KiB. *)
Theorem multiDownload_candidates_tidy (c : cli_Context) (input : string)
    (s : State) :
  exists called,
    candidates (fst (multiDownload c (bufio.NewScanner input) s))
      = (candidates s ++ called)%list /\
    Forall tidyCandidate called.
Proof.
  destruct (yieldsAt_multiDownload s c input) as (called & E & P & _).
  exists called. split; [exact E|].
  exact (prefix_Forall _ _ _ P (yielded_tidy input)).
Qed.

(** X4: every request carries the flags.  In every run, each request
    handed to the engine has the directory of the dir flag, the
    destination of the output flag (the same for every URL of the run),
    the chunk size and concurrency of their flags and the interval 150. *)
Theorem requests_carry_flags (c : cli_Context) (w : W) :
  Forall (fun entry => carriesFlags c (fst entry))
         (submitted (fst (main_run c w))).
Proof.
  apply (triple_run
           (fun s => Forall (fun entry => carriesFlags c (fst entry))
                            (submitted s))
           (fun s _ => Forall (fun entry => carriesFlags c (fst entry))
                              (submitted s)));
    try (intros; assumption); [|constructor].
  intros url s H. unfold download.
  destruct (getURL url) as [u [err|]]; simpl; [exact H|].
  destruct (got_Do _ _ _) as [w' r]; simpl.
  apply Forall_app. split; [exact H|].
  constructor; [|constructor]. now repeat split.
Qed.

(** X5: a URL that does not parse stops the run before the engine sees
    it.  In every run the requests handed to the engine are the normal
    forms of the candidates, in order, with one possible exception: the
    last candidate, when it did not parse; then the engine was not called
    for it and the run returns the parser's error. *)
Theorem unparsable_candidate_stops_run (c : cli_Context) (w : W) :
  aligned (fst (main_run c w)) \/
  exists cs url err,
    candidates (fst (main_run c w)) = (cs ++ [url])%list /\
    Forall2 normalized cs (submitted (fst (main_run c w))) /\
    url_Parse url = inr err /\
    snd (main_run c w) = Some err.
Proof.
  apply (triple_run aligned
           (fun s r =>
              aligned s \/
              exists cs url err,
                candidates s = (cs ++ [url])%list /\
                Forall2 normalized cs (submitted s) /\
                url_Parse url = inr err /\ r = Some err));
    try (intros; assumption); auto; [| |constructor].
  - intros s [H|(cs & url & err & _ & _ & _ & H)]; [exact H|discriminate].
  - intros url s H. unfold download, getURL.
    destruct (url_Parse url) as [u|err] eqn:E; simpl.
    + left. destruct (got_Do _ _ _) as [w' r]; simpl.
      apply Forall2_app; [exact H|]. constructor; [|constructor].
      unfold normalized, getURL. simpl. now rewrite E.
    + right. exists (candidates s), url, err. repeat split; assumption.
Qed.


(** The argument a has no scheme and is sent as "https://a"; the
    argument "http://b/x" keeps its own. *)
Example schemes_sent :
  map (fun entry => URL_ (fst entry))
      (submitted (fst (main_run (demo.withArgs ["a"; "http://b/x"]
                                   demo.noFlags) demo.quiet)))
  = ["https://a"; "http://b/x"].
Proof. reflexivity. Qed.

(** *** The completion markers *)

Lemma triple_pointwise (I : State -> Prop) (Q : State -> option error -> Prop)
    (m m' : stmt) :
  (forall s, m s = m' s) -> triple I m' Q -> triple I m Q.
Proof. intros E H s Hs. rewrite E. now apply H. Qed.

Section Steps.

Variable I : State -> Prop.
Variable Q : State -> option error -> Prop.
Hypothesis Q_I : forall s, Q s None -> I s.
Hypothesis I_Q : forall s, I s -> Q s None.
Hypothesis Q_ret : forall s err, I s -> Q s (Some err).
Hypothesis I_world : forall w s, I s -> I (set_world w s).
Hypothesis I_agent : forall a s, I s -> I (set_UserAgent a s).
Hypothesis I_header : forall h s, I s -> I (append_HeaderSlice h s).
Variable c : cli_Context.
Hypothesis step : forall url, triple I (seq (download c url) (done url)) Q.

Lemma steps_forArgs (args : list string) : triple I (forArgs c args) Q.
Proof.
  induction args as [|u rest IH]; simpl.
  - now apply triple_skip.
  - apply (triple_pointwise _ _ _
             (seq (seq (download c u) (done u)) (forArgs c rest))).
    + intros s. now rewrite seq_assoc.
    + apply triple_seq; [exact Q_I|apply step|exact IH].
Qed.

Lemma steps_multiDownload (input : string) :
  triple I (multiDownload c (bufio.NewScanner input)) Q.
Proof.
  apply (triple_pointwise _ _ _ (forArgs c (yielded input))).
  - intros s. apply forTokens_forArgs.
  - apply steps_forArgs.
Qed.

Lemma steps_run : triple I (run c) Q.
Proof.
  intros s H. unfold run.
  destruct (Stdin_Stat (world s)) as [info|err]; [|now apply Q_ret].
  revert s H. apply triple_seq; [exact Q_I|now apply triple_createDir|].
  apply triple_seq; [exact Q_I|now apply triple_setAgent|].
  apply triple_seq; [exact Q_I| |].
  { intros s H. unfold pipedStdin.
    apply (triple_when I Q I_Q (piped info) _
             (steps_multiDownload (Stdin s)) s H). }
  apply triple_seq; [exact Q_I| |].
  { apply triple_when; [exact I_Q|]. intros s H.
    destruct (os_Open (world s) (flag_file c)) as [file|err].
    - apply (steps_multiDownload file s H).
    - now apply Q_ret. }
  apply triple_seq; [exact Q_I|now apply triple_forHeaders|].
  apply steps_forArgs.
Qed.

End Steps.

(** X6: the completion markers tell what was downloaded.  At the end of
    every run, the texts that [run] and [multiDownload] themselves have
    printed are the two prints (clear line, then check mark with the URL
    as it was given) for each candidate in order; when the run returns
    an error, the last candidate may be without its marker, and no other
    one is.  This is about the command's own calls of [fmt.Print] and
    [fmt.Printf]; what the progress indicator writes between them is
    not covered. *)
Theorem markers_follow_downloads (c : cli_Context) (w : W) :
  printed (fst (main_run c w))
    = flat_map marker (candidates (fst (main_run c w))) \/
  (snd (main_run c w) <> None /\
   exists finished url,
     candidates (fst (main_run c w)) = (finished ++ [url])%list /\
     printed (fst (main_run c w)) = flat_map marker finished).
Proof.
  apply (steps_run
           (fun s => printed s = flat_map marker (candidates s))
           (fun s r =>
              printed s = flat_map marker (candidates s) \/
              (r <> None /\
               exists finished url,
                 candidates s = (finished ++ [url])%list /\
                 printed s = flat_map marker finished)));
    try (intros; assumption); auto.
  - intros s [H|[H _]]; [exact H|congruence].
  - intros url s H. unfold seq, download.
    destruct (getURL url) as [u [err|]]; simpl.
    + right. split; [discriminate|]. now exists (candidates s), url.
    + destruct (got_Do _ _ _) as [w' [err|]]; simpl.
      * right. split; [discriminate|]. now exists (candidates s), url.
      * left. rewrite flat_map_app, H. simpl. now rewrite <- app_assoc.
Qed.

End MoreHistories.

Section Headers.

Context {world_ops : World}.

Lemma headerEntry_tidy (h : string) :
  Contains h ":" = true -> tidyEntry (headerEntry h).
Proof.
  intros H. destruct (Contains_Cut h ":" H) as (k & v & E).
  destruct (Cut_Some h ":" k v E) as [_ Hk].
  unfold tidyEntry, headerEntry, SplitN2. rewrite E. simpl.
  split; [exact Hk|apply TrimSpace_idempotent].
Qed.

(** The argument loop leaves [HeaderSlice] alone and sends it with every
    request. *)
Lemma forArgs_headers (c : cli_Context) (args : list string)
    (H : list GotHeader) (base : list (Download * option error)) :
  triple (fun s =>
            HeaderSlice s = H /\
            exists late,
              submitted s = (base ++ late)%list /\
              Forall (fun entry => Header (fst entry) = H) late)
         (forArgs c args)
         (fun s _ =>
            HeaderSlice s = H /\
            exists late,
              submitted s = (base ++ late)%list /\
              Forall (fun entry => Header (fst entry) = H) late).
Proof.
  apply triple_forArgs; try (intros; assumption).
  intros url s (E & late & Es & Hl). unfold download.
  destruct (getURL url) as [u [err|]]; simpl; [now eauto|].
  destruct (got_Do _ _ _) as [w' r]; simpl. split; [exact E|].
  exists (late ++ [(request c u (note_candidate url s), r)])%list.
  split; [now rewrite Es, app_assoc|].
  apply Forall_app. split; [exact Hl|]. constructor; [exact E|constructor].
Qed.

Lemma headerless_initial (w : W) : headerless (initial w).
Proof. split; [reflexivity|constructor]. Qed.

(** X7: the header flags reach the requests for the arguments.  When
    every header flag holds a colon, the requests of a run are those
    submitted before the flags were read, followed by requests that each
    carry the entries of all the flags, in flag order. *)
Theorem argument_requests_carry_all_headers (c : cli_Context) (w : W)
    (info : FileInfo) :
  Stdin_Stat w = inl info ->
  Forall (fun h => Contains h ":" = true) (flag_header c) ->
  exists late,
    submitted (fst (main_run c w))
    = (submitted (fst (beforeHeaders c info (initial w))) ++ late)%list /\
    Forall (fun entry =>
              Header (fst entry) = map headerEntry (flag_header c)) late.
Proof.
  intros Hs Hh. rewrite (main_run_split c w info Hs).
  pose proof (headerless_beforeHeaders c info (initial w)
                (headerless_initial w)) as [H0 _].
  unfold seq at 1.
  destruct (beforeHeaders c info (initial w)) as [s1 [err|]]; simpl in *.
  - exists []. now rewrite app_nil_r.
  - unfold fromHeaders, headerFlags, fromArgs, seq.
    rewrite (forHeaders_good _ _ Hh).
    apply (forArgs_headers c (Args c) (map headerEntry (flag_header c))
             (submitted s1) (withHeaders (flag_header c) s1)).
    split.
    + now rewrite withHeaders_HeaderSlice, H0.
    + exists []. now rewrite withHeaders_submitted, app_nil_r.
Qed.

(** X8: a header flag without a colon stops the run before any argument
    is downloaded.  When the part of the run before the header flags
    returns no error, the run ends in the state that part left, with the
    entries of the flags before the first malformed one appended, and
    returns the error that names that flag; later flags are not looked
    at. *)
Theorem malformed_header_stops_run (c : cli_Context) (w : W)
    (info : FileInfo) (good : list string) (bad : string)
    (rest : list string) :
  Stdin_Stat w = inl info ->
  flag_header c = (good ++ bad :: rest)%list ->
  Forall (fun h => Contains h ":" = true) good ->
  Contains bad ":" = false ->
  snd (beforeHeaders c info (initial w)) = None ->
  main_run c w
  = (withHeaders good (fst (beforeHeaders c info (initial w))),
     Some (errors_New ("malformatted header " ++ bad))).
Proof.
  intros Hs Hh Hg Hb Hn. rewrite (main_run_split c w info Hs).
  unfold seq at 1.
  destruct (beforeHeaders c info (initial w)) as [s1 r]; simpl in *.
  subst r. unfold fromHeaders, headerFlags, seq. rewrite Hh.
  now rewrite (forHeaders_bad good bad rest s1 Hg Hb).
Qed.

(** X9: the header list of a run.  At the end of every run [HeaderSlice]
    holds the entries of an initial part of the header flags, in flag
    order (all of them when the run returns no error); every key is free
    of colons and every value free of surrounding white space. *)
Theorem header_list_of_run (c : cli_Context) (w : W) :
  exists used,
    prefix used (flag_header c) /\
    HeaderSlice (fst (main_run c w)) = map headerEntry used /\
    Forall tidyEntry (HeaderSlice (fst (main_run c w))) /\
    (snd (main_run c w) = None -> used = flag_header c).
Proof.
  assert (forall used,
            Forall (fun h => Contains h ":" = true) used ->
            Forall tidyEntry (map headerEntry used)) as Htidy.
  { intros used H. apply Forall_map. revert H. apply Forall_impl.
    exact headerEntry_tidy. }
  destruct (Stdin_Stat w) as [info|err] eqn:Hs.
  2:{ exists []. unfold main_run, run. simpl. rewrite Hs. simpl.
      repeat split; [apply prefix_nil|constructor|discriminate]. }
  rewrite (main_run_split c w info Hs).
  pose proof (headerless_beforeHeaders c info (initial w)
                (headerless_initial w)) as [H0 _].
  unfold seq.
  destruct (beforeHeaders c info (initial w)) as [s1 [err|]]; simpl in *.
  { exists []. rewrite H0.
    repeat split; [apply prefix_nil|constructor|discriminate]. }
  unfold fromHeaders, headerFlags, fromArgs, seq.
  destruct (first_malformed (flag_header c))
    as [Hh|(good & bad & rest & Eh & Hg & Hb)].
  - rewrite (forHeaders_good _ _ Hh). exists (flag_header c).
    destruct (forArgs_headers c (Args c) (map headerEntry (flag_header c))
                (submitted s1) (withHeaders (flag_header c) s1)) as [E _].
    { split; [now rewrite withHeaders_HeaderSlice, H0|].
      exists []. now rewrite withHeaders_submitted, app_nil_r. }
    rewrite E. repeat split; [apply prefix_refl|now apply Htidy].
  - rewrite Eh, (forHeaders_bad good bad rest s1 Hg Hb). simpl.
    exists good. rewrite withHeaders_HeaderSlice, H0. simpl.
    repeat split; [now exists (bad :: rest)|now apply Htidy|discriminate].
Qed.

(** X10: a batch file that cannot be opened stops the run.  When the
    part of the run up to the reading of standard input returns no error
    and the batch file does not open, the run ends in the state that part
    left and returns the error of [os.Open]: no header flag is read and
    no argument is downloaded. *)
Theorem unopened_batch_file_stops_run (c : cli_Context) (w : W)
    (info : FileInfo) (err : error) :
  Stdin_Stat w = inl info ->
  flag_file c <> "" ->
  snd (throughStdin c info (initial w)) = None ->
  os_Open (world (fst (throughStdin c info (initial w)))) (flag_file c)
    = inr err ->
  main_run c w = (fst (throughStdin c info (initial w)), Some err) /\
  HeaderSlice (fst (main_run c w)) = [].
Proof.
  intros Hs Hf Hn Ho.
  assert (main_run c w = (fst (throughStdin c info (initial w)), Some err))
    as E.
  { rewrite (main_run_split c w info Hs). unfold beforeHeaders.
    rewrite seq_assoc. unfold seq at 1.
    destruct (throughStdin c info (initial w)) as [s1 r]; simpl in *.
    subst r. unfold seq, batchFile.
    apply String.eqb_neq in Hf. rewrite Hf. simpl. now rewrite Ho. }
  split; [exact E|]. rewrite E. simpl.
  apply (triple_throughStdin headerless (fun s _ => headerless s));
    try (intros; assumption); auto.
  - apply headerless_download.
  - apply headerless_initial.
Qed.

End Headers.

(* ================================================================== *)
(** ** More about the progress callback *)

Module bridge_facts.

Import bridge.
Open Scope Z_scope.

Lemma int_small (x : Z) : x < 2 ^ 63 -> int x = x.
Proof. intros H. unfold int. apply Z.ltb_lt in H. now rewrite H. Qed.

Lemma add64_small (a b : Z) :
  - 2 ^ 63 <= a + b < 2 ^ 63 -> add64 a b = a + b.
Proof.
  intros H. unfold add64.
  rewrite Z.mod_small; lia.
Qed.



Lemma ProgressFunc_step (M : Z) (p : ProgressBar) (d : Snapshot) :
  0 < M < 2 ^ 62 ->
  TotalSize d = M -> 0 <= Size d <= M ->
  0 <= currentNum p ->
  max (ProgressFunc p d) = M /\
  (currentNum p < M ->
   currentNum (ProgressFunc p d) = currentNum p + Size d) /\
  (M <= currentNum p -> currentNum (ProgressFunc p d) = currentNum p).
Proof.
  intros HM HT HS Hp. unfold ProgressFunc, Add, ChangeMax.
  cbn [max currentNum].
  rewrite HT. rewrite (int_small M) by lia.
  rewrite (int_small (Size d)) by lia.
  destruct (M =? 0) eqn:E0; [apply Z.eqb_eq in E0; exfalso; lia|].
  destruct (currentNum p <? M) eqn:E; cbn [max currentNum].
  - apply Z.ltb_lt in E. rewrite add64_small by lia. lia.
  - apply Z.ltb_ge in E. lia.
Qed.

Lemma resumed_bounds (M : Z) (ds : list Snapshot) :
  0 < M < 2 ^ 62 ->
  Forall (fun d => TotalSize d = M /\ 0 <= Size d <= M) ds ->
  forall p b,
    0 <= currentNum p < b -> 2 * M <= b ->
    0 <= currentNum (resumed p ds) < b.
Proof.
  intros HM Hds. unfold resumed.
  induction ds as [|x rest IH]; intros p b Hp Hb; cbn [fold_left];
    [exact Hp|].
  destruct (Forall_inv Hds) as [HxT HxS].
  apply (IH (Forall_inv_tail Hds)); [|exact Hb].
  destruct (ProgressFunc_step M p x HM HxT HxS) as (_ & Hlt & Hge); lia.
Qed.

(** X12: how far the indicator can run.  The indicator is shared by the
    downloads of a run and never reset, so a download finds it at some
    position [currentNum p].  For a download of known size [M] whose
    callback reports between 0 and [M] transferred bytes each time: the
    upper bound is [M] after every report; a report advances the
    position by the reported number while the position is below [M] and
    leaves it alone once [M] is reached; so the position never moves
    backwards, and it stays below [2 * M], or at most where the download
    found it when that was beyond. *)
Theorem position_monotone_and_bounded (M : Z) (p : ProgressBar)
    (ds : list Snapshot) (d : Snapshot) :
  0 < M < 2 ^ 62 ->
  0 <= currentNum p ->
  Forall (fun d => TotalSize d = M /\ 0 <= Size d <= M) (ds ++ [d]) ->
  max (resumed p (ds ++ [d])) = M /\
  currentNum (resumed p ds) <= currentNum (resumed p (ds ++ [d])) /\
  currentNum (resumed p (ds ++ [d])) < Z.max (currentNum p + 1) (2 * M) /\
  (currentNum (resumed p ds) < M ->
   currentNum (resumed p (ds ++ [d])) = currentNum (resumed p ds) + Size d) /\
  (M <= currentNum (resumed p ds) ->
   currentNum (resumed p (ds ++ [d])) = currentNum (resumed p ds)).
Proof.
  intros HM Hp H. apply Forall_app in H. destruct H as [Hds Hd].
  apply Forall_inv in Hd. destruct Hd as [HT HS].
  pose proof (resumed_bounds M ds HM Hds p
                (Z.max (currentNum p + 1) (2 * M))) as Hb.
  assert (0 <= currentNum (resumed p ds)
          < Z.max (currentNum p + 1) (2 * M)) as Hq by (apply Hb; lia).
  clear Hb.
  assert (resumed p (ds ++ [d]) = ProgressFunc (resumed p ds) d) as ->
    by (unfold resumed; now rewrite fold_left_app).
  destruct (ProgressFunc_step M (resumed p ds) d HM HT HS)
    as (Hmax & Hlt & Hge); [lia|].
  repeat split; [exact Hmax| | |exact Hlt|exact Hge]; lia.
Qed.


(** The second download of a run: the first one, of size 100, has left
    the indicator at 130; reports of the second, of size 50, change the
    upper bound and leave the position where it is. *)
Lemma position_monotone_and_bounded_witness :
  let p := after [ {| TotalSize := 100; Size := 60 |};
                   {| TotalSize := 100; Size := 70 |} ] in
  let d := {| TotalSize := 50; Size := 5 |} in
  currentNum p = 130 /\
  max (resumed p ([] ++ [d])) = 50 /\
  currentNum (resumed p ([] ++ [d])) = currentNum (resumed p []).
Proof.
  intros p d. split; [reflexivity|].
  destruct (position_monotone_and_bounded 50 p [] d) as (Hm & _ & _ & _ & Hge).
  - split; reflexivity.
  - discriminate.
  - repeat constructor; discriminate.
  - split; [exact Hm|]. apply Hge. discriminate.
Defined.

(** The first download of a run, of size 100, with the reports 60, 70
    and 100: the position goes to 60 and to 130, beyond the upper bound,
    and stays there. *)
Example first_download_overshoots :
  let ds := [ {| TotalSize := 100; Size := 60 |};
              {| TotalSize := 100; Size := 70 |};
              {| TotalSize := 100; Size := 100 |} ] in
  resumed (New 0) ds = after ds /\
  map (fun n => currentNum (after (firstn n ds))) [1; 2; 3]%nat
  = [60; 130; 130].
Proof. split; reflexivity. Qed.

End bridge_facts.

(* ================================================================== *)
(** ** More about the interrupt listener *)

Module listener_more.

Import listener.

Lemma advance_start : advance start = start.
Proof. reflexivity. Qed.

(** X13: no cancellation without a signal.  In a schedule that delivers
    no signal the listener stays blocked at its receive, however often it
    is scheduled: the context stays active and nothing is logged. *)
Theorem no_signal_no_cancellation (schedule : list event) :
  delivered schedule = 0 -> after schedule = start.
Proof.
  unfold after, delivered.
  induction schedule as [|e rest IH]; simpl; [reflexivity|].
  destruct e as [sig| |]; simpl; [discriminate| |]; exact IH.
Qed.

Lemma no_signal_no_cancellation_witness :
  ctx (after [Advance; Advance; Advance]) = Active.
Proof.
  now rewrite (no_signal_no_cancellation [Advance; Advance; Advance] eq_refl).
Defined.

(** X14: the first signal is enough.  However many signals arrive before
    the listener is scheduled (at least one), its four statements then
    cancel the context, log the abort error once and end the process. *)
Theorem first_signal_cancels_and_exits (sig : Signal) (sigs : list Signal) :
  pc (after (map Deliver (sig :: sigs) ++ repeat Advance 4)) = Exited /\
  ctx (after (map Deliver (sig :: sigs) ++ repeat Advance 4)) = Cancelled /\
  logged (after (map Deliver (sig :: sigs) ++ repeat Advance 4))
    = [ErrDownloadAborted].
Proof.
  pose proof (listener_facts.listener_exits sig sigs) as H.
  pose proof (listener_facts.inv_after
                (map Deliver (sig :: sigs) ++ repeat Advance 4)) as Hi.
  unfold invariant in Hi. rewrite H in Hi. tauto.
Qed.

(** [log.Fatal] in one go is its line followed by its exit. *)
Lemma advance_through_fatal (s : state) :
  pc s = AtFatal -> advance s = advance (enterFatal s).
Proof. unfold advance, enterFatal. now intros ->. Qed.

(** X15: the order of the listener's effects.  In every state that a
    schedule can reach, either nothing is logged, or exactly the abort
    error is, and then the context has been cancelled (once), signals are
    no longer relayed, and the goroutine is inside [log.Fatal] after its
    line, or the process is gone: ended by [os.Exit], or killed by a
    signal that arrived after the line; as long as the context is
    active, signals are still relayed; and a process that [os.Exit]
    ended has logged the abort error. *)
Theorem log_follows_cancel_and_stop (schedule : list event) :
  (logged (after schedule) = [] \/
   (logged (after schedule) = [ErrDownloadAborted] /\
    ctx (after schedule) = Cancelled /\
    transitions (after schedule) = 1 /\
    relaying (after schedule) = false /\
    (pc (after schedule) = AtExit \/ pc (after schedule) = Exited \/
     pc (after schedule) = Killed))) /\
  (ctx (after schedule) = Active -> relaying (after schedule) = true) /\
  (pc (after schedule) = Exited ->
   logged (after schedule) = [ErrDownloadAborted]).
Proof.
  pose proof (listener_facts.inv_after schedule) as H. unfold invariant in H.
  destruct (pc (after schedule)) eqn:E; (split; [|split]);
    try (intros E'; destruct H as (? & E'' & _); congruence);
    try discriminate; tauto.
Qed.

(** The three ways in which a cancelled run ends: [log.Fatal] runs to
    its end; a signal kills the process before the line is written; a
    signal kills it between the line and [os.Exit]. *)
Example ends_of_a_cancelled_run :
  let toFatal := [Deliver SIGINT; Advance; Advance; Advance] in
  (pc (after (toFatal ++ [Advance])) = Exited /\
   logged (after (toFatal ++ [Advance])) = [ErrDownloadAborted]) /\
  (pc (after (toFatal ++ [LogLine; Advance])) = Exited /\
   logged (after (toFatal ++ [LogLine; Advance])) = [ErrDownloadAborted]) /\
  (pc (after (toFatal ++ [Deliver SIGINT])) = Killed /\
   logged (after (toFatal ++ [Deliver SIGINT])) = []) /\
  (pc (after (toFatal ++ [LogLine; Deliver SIGINT])) = Killed /\
   logged (after (toFatal ++ [LogLine; Deliver SIGINT]))
     = [ErrDownloadAborted]).
Proof. repeat split. Qed.

End listener_more.

(* ================================================================== *)
(** ** The colour of the progress display *)

Module terminal_facts.

Import terminal.

Lemma doPrint_strings (ss : list string) :
  forall first prev, doPrint first prev (map Str ss) = joined (map Str ss).
Proof.
  induction ss as [|s rest IH]; intros first prev; simpl; [reflexivity|].
  rewrite andb_false_r. simpl. now rewrite IH.
Qed.

Lemma length_append (a b : string) :
  String.length (a ++ b) = String.length a + String.length b.
Proof. induction a as [|c a IH]; simpl; [reflexivity|]. now rewrite IH. Qed.

(** X16: [color] on both platforms.  String operands are joined without
    separator; the Windows variant returns that text, the other variant
    the same text between the codes for blue and for reset, which add 9
    bytes; two operands that are not strings are separated by a space. *)
Theorem color_wraps_the_text (content : list operand) :
  color_unix content = blue ++ color_windows content ++ reset /\
  String.length (color_unix content)
    = 9 + String.length (color_windows content) /\
  (forall ss, color_windows (map Str ss) = joined (map Str ss)) /\
  (forall a b, color_windows [Val a; Val b] = a ++ " " ++ b).
Proof.
  split; [reflexivity|]. split.
  - unfold color_unix, color_windows. rewrite !length_append. simpl. lia.
  - split.
    + intros ss. apply doPrint_strings.
    + intros a b. unfold color_windows, Sprint. simpl.
      now rewrite append_nil_r.
Qed.

End terminal_facts.

(* ================================================================== *)
(** ** More examples in the small world *)

Module more_examples.

Import demo.

(** Two header flags and two arguments: both requests carry both
    entries. *)
Lemma argument_requests_carry_all_headers_witness :
  let c := withHeader ["A: b"; "C:d"] (withArgs ["x"; "y"] noFlags) in
  exists late,
    submitted (fst (main_run c quiet))
    = (submitted (fst (beforeHeaders c {| Mode := 0; Size := 0 |}
                         (initial quiet))) ++ late)%list /\
    Forall (fun entry =>
              Header (fst entry) = map headerEntry (flag_header c)) late.
Proof.
  intros c.
  apply (argument_requests_carry_all_headers c quiet
           {| Mode := 0; Size := 0 |} eq_refl).
  repeat constructor.
Defined.

Example headers_on_argument_requests :
  let c := withHeader ["A: b"; "C:d"] (withArgs ["x"; "y"] noFlags) in
  map (fun entry => (URL_ (fst entry), Header (fst entry)))
      (submitted (fst (main_run c quiet)))
  = [("https://x", [{| Key := "A"; Value := "b" |};
                    {| Key := "C"; Value := "d" |}]);
     ("https://y", [{| Key := "A"; Value := "b" |};
                    {| Key := "C"; Value := "d" |}])].
Proof. reflexivity. Qed.

(** The second of three header flags has no colon. *)
Lemma malformed_header_stops_run_witness :
  let c := withHeader ["A: b"; "Bad"; "C: d"] (withArgs ["x"] noFlags) in
  main_run c quiet
  = (withHeaders ["A: b"]
       (fst (beforeHeaders c {| Mode := 0; Size := 0 |} (initial quiet))),
     Some (errors_New "malformatted header Bad")).
Proof.
  intros c.
  apply (malformed_header_stops_run c quiet {| Mode := 0; Size := 0 |}
           ["A: b"] "Bad" ["C: d"] eq_refl eq_refl);
    [repeat constructor | reflexivity | reflexivity].
Defined.

(** The batch file is missing; standard input holds one URL. *)
Lemma unopened_batch_file_stops_run_witness :
  let c := withBatch "missing" (withArgs ["x"] noFlags) in
  let w := withStdin (text ["a"]) quiet in
  main_run c w
  = (fst (throughStdin c {| Mode := ModeNamedPipe; Size := 2 |} (initial w)),
     Some (PathError "open" "missing" ENOENT)) /\
  HeaderSlice (fst (main_run c w)) = [].
Proof.
  intros c w.
  apply (unopened_batch_file_stops_run c w
           {| Mode := ModeNamedPipe; Size := 2 |}
           (PathError "open" "missing" ENOENT) eq_refl);
    [discriminate | reflexivity | reflexivity].
Defined.

Example missing_batch_file :
  let c := withBatch "missing" (withArgs ["x"] noFlags) in
  fetched (world (fst (main_run c (withStdin (text ["a"]) quiet))))
  = ["https://a"].
Proof. reflexivity. Qed.

End more_examples.
